(** * google-indexing-script: the status-classification and submission pipeline

    A shallow embedding of [src/index.ts] (the pipeline), of the second
    variant of the same file kept as [part_001], and of the enumerations of
    [shared/types.ts] ([part_000]).

    Conventions of the embedding.
    - A JavaScript [Date] is represented by its time value: milliseconds
      since the epoch, or [NaN] for an Invalid Date.  The [lastCheckedAt]
      field is an ISO string in the source; it is only ever produced by
      [toISOString] and consumed by [new Date(...)], so the embedding stores
      the time value that [new Date] reads back from it.
    - The cache object [pages] is only used with URL keys, which are never
      array indices, so [Object.keys] enumerates it in insertion order: it
      is an association list kept in insertion order.
    - The collaborators of [shared/] (network, clock) are functions on an
      abstract world; every call the pipeline makes is recorded as an event,
      in the order the calls happen. *)

From Stdlib Require Import List Ascii String ZArith Bool Lia Permutation.
Import ListNotations.
Open Scope Z_scope.

(** ** shared/types.ts *)

Inductive IndexingStatus : Type :=
| SubmittedAndIndexed
| DuplicateWithoutUserSelectedCanonical
| CrawledCurrentlyNotIndexed
| DiscoveredCurrentlyNotIndexed
| PageWithRedirect
| URLIsUnknownToGoogle
| RateLimited
| Forbidden
| Error.

(** The enumeration is string valued; these are the labels of the source. *)
Definition IndexingStatus_label (s : IndexingStatus) : string :=
  match s with
  | SubmittedAndIndexed => "Submitted and indexed"
  | DuplicateWithoutUserSelectedCanonical => "Duplicate without user-selected canonical"
  | CrawledCurrentlyNotIndexed => "Crawled - currently not indexed"
  | DiscoveredCurrentlyNotIndexed => "Discovered - currently not indexed"
  | PageWithRedirect => "Page with redirect"
  | URLIsUnknownToGoogle => "URL is unknown to Google"
  | RateLimited => "RateLimited"
  | Forbidden => "Forbidden"
  | Error => "Error"
  end%string.

Inductive PageStatus : Type :=
| Pending
| Processing
| Completed
| Failed.

Definition PageStatus_label (s : PageStatus) : string :=
  match s with
  | Pending => "Pending"
  | Processing => "Processing"
  | Completed => "Completed"
  | Failed => "Failed"
  end%string.

(** [===] on two members of a string enumeration compares their labels. *)
Definition IndexingStatus_eqb (a b : IndexingStatus) : bool :=
  String.eqb (IndexingStatus_label a) (IndexingStatus_label b).

Definition PageStatus_eqb (a b : PageStatus) : bool :=
  String.eqb (PageStatus_label a) (PageStatus_label b).

(** [Array.prototype.includes] on an array of statuses. *)
Definition includes (l : list IndexingStatus) (s : IndexingStatus) : bool :=
  existsb (IndexingStatus_eqb s) l.

(** ** Dates *)

Inductive TimeValue : Type :=
| Ms (t : Z)
| NaN.

(** [a < b] on two [Date] objects compares their time values as numbers;
    any comparison with [NaN] is false. *)
Definition date_lt (a b : TimeValue) : bool :=
  match a, b with
  | Ms x, Ms y => x <? y
  | _, _ => false
  end.

Record Page : Type := mkPage {
  status : PageStatus;
  indexingStatus : IndexingStatus;
  lastCheckedAt : TimeValue
}.

(** ** Constants, the same in both variants *)

Definition CACHE_TIMEOUT : Z := 1000 * 60 * 60 * 24 * 14.

Module QUOTA.
Module rpm.
Definition retries : nat := 3.
Definition waitingTime : Z := 60000.
End rpm.
End QUOTA.

(** [isOld], the same expression in both variants:
    [new Date(lastCheckedAt) < new Date(Date.now() - CACHE_TIMEOUT)]. *)
Definition isOld (now : Z) (checkedAt : TimeValue) : bool :=
  date_lt checkedAt (Ms (now - CACHE_TIMEOUT)).

(** ** src/index.ts: classification and staleness *)

Definition indexableStatuses : list IndexingStatus :=
  [ DiscoveredCurrentlyNotIndexed;
    CrawledCurrentlyNotIndexed;
    URLIsUnknownToGoogle;
    Forbidden;
    Error ].

(** Lines 133-137, the [status] expression of the batch worker. *)
Definition classify (s : IndexingStatus) : PageStatus :=
  if includes indexableStatuses s then Pending
  else if IndexingStatus_eqb s RateLimited then Failed
  else Completed.

Definition shouldRecheck (now : Z) (page : Page) : bool :=
  let isFailed := PageStatus_eqb (status page) Failed in
  let isOld := isOld now (lastCheckedAt page) in
  isOld || isFailed.

Definition shouldBeSubmitted (page : Page) : bool :=
  PageStatus_eqb (status page) Pending.

(** ** part_001: the staleness policy of the second variant *)

Module Part001.

Definition indexableStatuses : list IndexingStatus :=
  [ DiscoveredCurrentlyNotIndexed;
    CrawledCurrentlyNotIndexed;
    URLIsUnknownToGoogle;
    Forbidden;
    Error;
    RateLimited ].

Definition shouldRecheck (now : Z) (status : IndexingStatus)
           (lastCheckedAt : TimeValue) : bool :=
  let shouldIndexIt := includes indexableStatuses status in
  let isOld := isOld now lastCheckedAt in
  shouldIndexIt && isOld.

End Part001.

(** ** The cache object and the per-status report *)

Definition Url : Type := string.

(** [pages]: the object parsed from the cache file, keyed by URL. *)
Definition Pages : Type := list (Url * Page).

(** [pages[url]] *)
Fixpoint pages_get (pages : Pages) (url : Url) : option Page :=
  match pages with
  | [] => None
  | (k, p) :: rest => if String.eqb k url then Some p else pages_get rest url
  end.

(** [pages[url] = page]: an existing key keeps its place, a new key goes last. *)
Fixpoint pages_set (pages : Pages) (url : Url) (page : Page) : Pages :=
  match pages with
  | [] => [(url, page)]
  | (k, p) :: rest =>
      if String.eqb k url then (k, page) :: rest
      else (k, p) :: pages_set rest url page
  end.

(** [Object.keys(pages)] *)
Definition pages_keys (pages : Pages) : list Url := map fst pages.

(** [pagesPerIndexingStatus], with its nine keys in the order of the literal. *)
Definition PerStatus : Type := list (IndexingStatus * list Url).

Definition pagesPerIndexingStatus_init : PerStatus :=
  [ (SubmittedAndIndexed, []);
    (DuplicateWithoutUserSelectedCanonical, []);
    (CrawledCurrentlyNotIndexed, []);
    (DiscoveredCurrentlyNotIndexed, []);
    (PageWithRedirect, []);
    (URLIsUnknownToGoogle, []);
    (RateLimited, []);
    (Forbidden, []);
    (Error, []) ].

(** [pps[s] = pps[s] ? [...pps[s], url] : [url]] *)
Fixpoint perStatus_push (pps : PerStatus) (s : IndexingStatus) (url : Url)
  : PerStatus :=
  match pps with
  | [] => [(s, [url])]
  | (k, urls) :: rest =>
      if IndexingStatus_eqb k s then (k, urls ++ [url]) :: rest
      else (k, urls) :: perStatus_push rest s url
  end.

(** ** The cache file *)

Inductive CacheFile : Type :=
| Absent                      (* existsSync(cachePath) is false *)
| Malformed                   (* the file exists, JSON.parse throws *)
| Stored (pages : Pages).     (* the file holds a serialized mapping *)

(** [existsSync(cachePath) ? JSON.parse(readFileSync(cachePath)) : {}];
    [None] stands for the SyntaxError of [JSON.parse]. *)
Definition loadCache (file : CacheFile) : option Pages :=
  match file with
  | Absent => Some []
  | Malformed => None
  | Stored pages => Some pages
  end.

(** ** What a run does to the outside, in order *)

Inductive Event : Type :=
| CallGetSitemapUrls
| ReadCacheFile
| CallGetPageIndexingStatus (url : Url) (result : IndexingStatus)
| BatchComplete (batchIndex batchCount : nat)
| MakeCacheDir
| WriteCacheFile (pages : Pages)
| CallGetPublishMetadata (url : Url) (retriesOnRateLimit : nat) (result : Z)
| CallRequestIndexing (url : Url)
| ProcessExit (code : Z).

Definition isStatusCheck (e : Event) : bool :=
  match e with CallGetPageIndexingStatus _ _ => true | _ => false end.

Definition isCacheWrite (e : Event) : bool :=
  match e with WriteCacheFile _ => true | _ => false end.

Definition isSubmission (e : Event) : bool :=
  match e with
  | CallGetPublishMetadata _ _ _ | CallRequestIndexing _ => true
  | _ => false
  end.

(** What the batch stage may do: status checks and batch completions. *)
Definition isBatchEvent (e : Event) : bool :=
  match e with
  | CallGetPageIndexingStatus _ _ | BatchComplete _ _ => true
  | _ => false
  end.

(** The URLs whose index status was fetched, in order. *)
Definition checkedUrls (trace : list Event) : list Url :=
  flat_map (fun e => match e with
                     | CallGetPageIndexingStatus url _ => [url]
                     | _ => []
                     end) trace.

(** The URLs whose publish metadata was fetched, with the retry budget
    given to each call, in order. *)
Definition queriedUrls (trace : list Event) : list (Url * nat) :=
  flat_map (fun e => match e with
                     | CallGetPublishMetadata url retries _ => [(url, retries)]
                     | _ => []
                     end) trace.

(** The URLs whose publish metadata came back as 404, in order. *)
Definition notFoundUrls (trace : list Event) : list Url :=
  flat_map (fun e => match e with
                     | CallGetPublishMetadata url _ result =>
                         if result =? 404 then [url] else []
                     | _ => []
                     end) trace.

(** The URLs for which indexing was requested, in order. *)
Definition requestedUrls (trace : list Event) : list Url :=
  flat_map (fun e => match e with
                     | CallRequestIndexing url => [url]
                     | _ => []
                     end) trace.

(** How many cached pages are in a given state. *)
Definition countStatus (st : PageStatus) (pages : Pages) : nat :=
  List.length (filter (fun kp => PageStatus_eqb (status (snd kp)) st) pages).

(** ** The collaborators of [shared/] (spec section 6)

    Each is a function of the world it acts on; [siteUrl] and [accessToken]
    are fixed for a run and left implicit.  A collaborator always returns:
    a rejected request is one of its results ([Error], a status of 400 or
    more), as section 6 of the spec has it. *)
Class Collaborators (World : Type) : Type := {
  (** [getSitemapUrls(accessToken, siteUrl)]: the sitemaps and their URLs *)
  getSitemapUrls : World -> (list string * list Url) * World;
  (** [checkCustomUrls(siteUrl, urls)] *)
  checkCustomUrls : list Url -> list Url;
  (** [getPageIndexingStatus(accessToken, siteUrl, url)] *)
  getPageIndexingStatus : World -> Url -> IndexingStatus * World;
  (** [getPublishMetadata(accessToken, url, { retriesOnRateLimit })] *)
  getPublishMetadata : World -> Url -> nat -> Z * World;
  (** [requestIndexing(accessToken, url)] *)
  requestIndexing : World -> Url -> World;
  (** [Date.now()], also the time value of [new Date()] *)
  dateNow : World -> Z * World
}.

(** The order in which the suspended tasks of a chunk are resumed is not
    fixed by the program: a scheduler picks one permutation per chunk. *)
Record Scheduler : Type := {
  settle : nat -> forall A : Type, list A -> list A;
  settle_perm : forall i A (l : list A), Permutation (settle i A l) l
}.

Definition fifo : Scheduler :=
  {| settle := fun _ _ l => l;
     settle_perm := fun _ A l => Permutation_refl l |}.

Definition lifo : Scheduler :=
  {| settle := fun _ A l => rev l;
     settle_perm := fun _ A l => Permutation_sym (Permutation_rev l) |}.

(** ** shared/utils.ts: batch *)

Section Batch.
Context {St : Type}.

(** An async task runs synchronously up to its first [await]; there it
    either has returned, or leaves the rest of its body to be resumed. *)
Definition Task : Type :=
  Url -> nat -> nat -> nat -> St -> St * option (St -> St).

(** Modelled from the spec: [createChunks] of shared/utils.ts is not among
    the sources; section 4.3: items are partitioned into consecutive chunks
    of at most [batchSize]. *)
Fixpoint createChunks_fuel (fuel : nat) (items : list Url) (batchSize : nat)
  : list (list Url) :=
  match fuel, items with
  | O, _ | _, [] => []
  | S fuel', _ =>
      firstn batchSize items
      :: createChunks_fuel fuel' (skipn batchSize items) batchSize
  end.

Definition createChunks (items : list Url) (batchSize : nat)
  : list (list Url) :=
  createChunks_fuel (List.length items) items batchSize.

(** [chunk.map(task)]: every task of the chunk is started, in item order. *)
Fixpoint dispatch (task : Task) (chunk : list Url)
         (itemIndex batchIndex batchCount : nat) (s : St)
  : St * list (St -> St) :=
  match chunk with
  | [] => (s, [])
  | url :: rest =>
      let '(s1, k) := task url itemIndex batchIndex batchCount s in
      let '(s2, ks) :=
        dispatch task rest (S itemIndex) batchIndex batchCount s1 in
      (s2, match k with Some k => k :: ks | None => ks end)
  end.

(** [await Promise.all(...)]: the suspended tasks are resumed one at a time. *)
Definition resumeAll (ks : list (St -> St)) (s : St) : St :=
  fold_left (fun s k => k s) ks s.

Fixpoint runChunks (sched : Scheduler) (task : Task)
         (onBatchComplete : nat -> nat -> St -> St)
         (chunks : list (list Url)) (batchIndex batchCount : nat) (s : St)
  : St :=
  match chunks with
  | [] => s
  | chunk :: rest =>
      let '(s1, ks) := dispatch task chunk 0 batchIndex batchCount s in
      let s2 := resumeAll (settle sched batchIndex _ ks) s1 in
      let s3 := onBatchComplete batchIndex batchCount s2 in
      runChunks sched task onBatchComplete rest
                (S batchIndex) batchCount s3
  end.

(** Modelled from the spec: [batch] of shared/utils.ts is not among the
    sources; section 4.3: the items of a chunk are dispatched together, the
    next chunk starts when all of them have settled, and [onBatchComplete]
    fires once per chunk in between. *)
Definition batch (sched : Scheduler) (task : Task) (items : list Url)
           (batchSize : nat) (onBatchComplete : nat -> nat -> St -> St)
           (s : St) : St :=
  let chunks := createChunks items batchSize in
  runChunks sched task onBatchComplete chunks 0 (List.length chunks) s.
End Batch.

(** ** src/index.ts: the pipeline *)

Inductive Outcome : Type :=
| Finished                 (* index resolves *)
| Exited (code : Z)        (* process.exit(code) *)
| Threw.                   (* index rejects *)

(** Truthiness of [options.quota.rpmRetry], an optional boolean. *)
Definition truthy (b : option bool) : bool :=
  match b with Some true => true | _ => false end.

Section Pipeline.
Context {World : Type} {C : Collaborators World}.

(** What the closures of [index] share while the batch runs. *)
Record State : Type := mkState {
  world : World;
  pages : Pages;
  pagesPerIndexingStatus : PerStatus;
  events : list Event
}.

(** Lines 80-97 (the same as lines 93-110 of part_001).  [inl code] is
    [process.exit(code)]. *)
Definition enumerateUrls (options_urls : option (list Url)) (w : World)
  : (Z + list Url) * World * list Event :=
  let urls := match options_urls with Some l => l | None => [] end in
  if (List.length urls =? 0)%nat then
    let '((sitemaps, urlsFromSitemaps), w1) := getSitemapUrls w in
    if (List.length sitemaps =? 0)%nat then
      (inl 1, w1, [CallGetSitemapUrls; ProcessExit 1])
    else
      (inr urlsFromSitemaps, w1, [CallGetSitemapUrls])
  else
    (inr (checkCustomUrls urls), w, []).

(** The rest of the worker after [await getPageIndexingStatus(...)]. *)
Definition recheck (url : Url) (s : State) : State :=
  let '(indexingStatus, w1) := getPageIndexingStatus (world s) url in
  let '(t, w2) := dateNow w1 in
  let page :=
    {| indexingStatus := indexingStatus;
       status := classify indexingStatus;
       lastCheckedAt := Ms t |} in
  {| world := w2;
     pages := pages_set (pages s) url page;
     pagesPerIndexingStatus :=
       perStatus_push (pagesPerIndexingStatus s) indexingStatus url;
     events := events s ++ [CallGetPageIndexingStatus url indexingStatus] |}.

(** Lines 127-146, the task given to [batch]. *)
Definition worker : @Task State :=
  fun url _ _ _ s =>
    match pages_get (pages s) url with
    | None => (s, Some (recheck url))
    | Some page =>
        let '(now, w1) := dateNow (world s) in
        let s1 := {| world := w1;
                     pages := pages s;
                     pagesPerIndexingStatus := pagesPerIndexingStatus s;
                     events := events s |} in
        if shouldRecheck now page then (s1, Some (recheck url))
        else
          ({| world := w1;
              pages := pages s;
              pagesPerIndexingStatus :=
                perStatus_push (pagesPerIndexingStatus s)
                               (indexingStatus page) url;
              events := events s |}, None)
    end.

Definition onBatchComplete (batchIndex batchCount : nat) (s : State)
  : State :=
  {| world := world s;
     pages := pages s;
     pagesPerIndexingStatus := pagesPerIndexingStatus s;
     events := events s ++ [BatchComplete batchIndex batchCount] |}.

(** Line 170. *)
Definition selectQueue (pages : Pages) : list Url :=
  filter (fun url => match pages_get pages url with
                     | Some page => shouldBeSubmitted page
                     | None => false
                     end)
         (pages_keys pages).

(** Lines 180-192; part_001 ends with the same loop (lines 188-200). *)
Fixpoint submitAll (rpmRetry : option bool) (queue : list Url) (w : World)
  : World * list Event :=
  match queue with
  | [] => (w, [])
  | url :: rest =>
      let retriesOnRateLimit :=
        if truthy rpmRetry then QUOTA.rpm.retries else 0%nat in
      let '(status, w1) := getPublishMetadata w url retriesOnRateLimit in
      let '(w2, requested) :=
        if status =? 404 then (requestIndexing w1 url, [CallRequestIndexing url])
        else (w1, []) in
      let '(w3, later) := submitAll rpmRetry rest w2 in
      (w3, CallGetPublishMetadata url retriesOnRateLimit status
             :: requested ++ later)
  end.

Record Run : Type := mkRun {
  outcome : Outcome;
  trace : list Event;
  cacheFile : CacheFile;     (* the cache file when the run ends *)
  finalWorld : World;
  savedPages : Pages;        (* [pages] when the run ends *)
  queue : list Url           (* [queue], empty if never computed *)
}.

(** Lines 80-197: the run once the site and the token are resolved. *)
Definition index (sched : Scheduler) (options_urls : option (list Url))
           (rpmRetry : option bool) (file : CacheFile) (w : World) : Run :=
  match enumerateUrls options_urls w with
  | (inl code, w1, ev) =>
      {| outcome := Exited code; trace := ev; cacheFile := file;
         finalWorld := w1; savedPages := []; queue := [] |}
  | (inr urls, w1, ev) =>
      let reads := match file with Absent => [] | _ => [ReadCacheFile] end in
      match loadCache file with
      | None =>
          {| outcome := Threw; trace := ev ++ reads; cacheFile := file;
             finalWorld := w1; savedPages := []; queue := [] |}
      | Some loaded =>
          let s0 := {| world := w1; pages := loaded;
                       pagesPerIndexingStatus := pagesPerIndexingStatus_init;
                       events := ev ++ reads |} in
          let s1 := batch sched worker urls 50 onBatchComplete s0 in
          let written := [MakeCacheDir; WriteCacheFile (pages s1)] in
          let queue := selectQueue (pages s1) in
          let '(w2, submissions) := submitAll rpmRetry queue (world s1) in
          {| outcome := Finished;
             trace := events s1 ++ written ++ submissions;
             cacheFile := Stored (pages s1);
             finalWorld := w2;
             savedPages := pages s1;
             queue := queue |}
      end
  end.
End Pipeline.

(** ** shared/gsc.ts: the retry on rate limit of getPublishMetadata *)

Inductive MetadataStep : Type :=
| Query (result : Z)      (* one request to the metadata endpoint *)
| Wait (ms : Z).          (* one backoff wait *)

Definition isWait (e : MetadataStep) : bool :=
  match e with Wait _ => true | Query _ => false end.

Definition isQuery (e : MetadataStep) : bool :=
  match e with Query _ => true | Wait _ => false end.

(** HTTP 429, the status of a rate-limited request. *)
Definition rateLimited (status : Z) : bool := status =? 429.

Section PublishMetadata.
Context {World : Type}.
Variable query : World -> Url -> Z * World.
Variable sleep : Z -> World -> World.

(** Modelled from the spec: [getPublishMetadata] of shared/gsc.ts is not
    among the sources; section 4.5, step 4: a rate-limited query is retried
    while the retry budget lasts, after waiting the fixed backoff interval
    [QUOTA.rpm.waitingTime]; with no budget left the rate-limited status is
    returned to the caller. *)
Fixpoint getPublishMetadata_retrying (w : World) (url : Url)
         (retriesOnRateLimit : nat) : Z * World * list MetadataStep :=
  let '(status, w1) := query w url in
  if rateLimited status then
    match retriesOnRateLimit with
    | O => (status, w1, [Query status])
    | S remaining =>
        let w2 := sleep QUOTA.rpm.waitingTime w1 in
        let '(final, w3, steps) := getPublishMetadata_retrying w2 url remaining in
        (final, w3, Query status :: Wait QUOTA.rpm.waitingTime :: steps)
    end
  else (status, w1, [Query status]).
End PublishMetadata.

(** ** A scripted service, to run the pipeline on concrete inputs

    The world is the list of URLs that have a publish notification on
    record; the clock, the sitemaps and the index status of every URL are
    fixed by the script. *)
Definition mem (url : Url) (l : list Url) : bool := existsb (String.eqb url) l.

Definition scripted (now : Z) (sitemaps : list string) (urls : list Url)
           (statusOf : Url -> IndexingStatus) : Collaborators (list Url) :=
  {| getSitemapUrls := fun w => ((sitemaps, urls), w);
     checkCustomUrls := fun l => l;
     getPageIndexingStatus := fun w url => (statusOf url, w);
     getPublishMetadata := fun w url _ => (if mem url w then 200 else 404, w);
     requestIndexing := fun w url => url :: w;
     dateNow := fun w => (now, w) |}.

(** Three pages of [https://example.com], in the states of the end-to-end
    scenario. *)
Definition page_a : Url := "https://example.com/a"%string.
Definition page_b : Url := "https://example.com/b"%string.
Definition page_c : Url := "https://example.com/c"%string.
Definition page_old : Url := "https://example.com/retired"%string.

Definition scenario_status (url : Url) : IndexingStatus :=
  if String.eqb url page_a then DiscoveredCurrentlyNotIndexed
  else if String.eqb url page_b then SubmittedAndIndexed
  else RateLimited.

(** 2024-01-01T00:00:00.000Z *)
Definition scenario_now : Z := 1704067200000.

Definition scenario : Collaborators (list Url) :=
  scripted scenario_now ["https://example.com/sitemap.xml"%string]
           [page_a; page_b; page_c] scenario_status.

(** A sitemap is registered, but it lists no URL. *)
Definition empty_sitemap : Collaborators (list Url) :=
  scripted scenario_now ["https://example.com/sitemap.xml"%string]
           [] scenario_status.

(** No sitemap is registered. *)
Definition no_sitemap : Collaborators (list Url) :=
  scripted scenario_now [] [] scenario_status.

(** A cache left by an earlier run: one page still pending, checked a day
    before [scenario_now]. *)
Definition old_cache : Pages :=
  [ (page_old, {| status := Pending;
                  indexingStatus := CrawledCurrentlyNotIndexed;
                  lastCheckedAt := Ms (scenario_now - 86400000) |}) ].

(** A metadata endpoint that answers 429 to its first [n] requests, then 200. *)
Definition throttled_query (n : nat) (_ : Url) : Z * nat :=
  match n with
  | O => (200, O)
  | S n' => (429, n')
  end.

(** The scripted runs used below. *)

(** The scenario, on a site never indexed before. *)
Definition first_run : Run :=
  @index _ scenario fifo None (Some true) Absent [].

(** The same again, on what [first_run] left behind. *)
Definition second_run : Run :=
  @index _ scenario lifo None (Some true)
         (cacheFile first_run) (finalWorld first_run).

(** The scenario, with the cache of an earlier run on disk. *)
Definition carried_over_run : Run :=
  @index _ scenario fifo None None (Stored old_cache) [].

Definition empty_sitemap_run : Run :=
  @index _ empty_sitemap fifo None (Some true) (Stored old_cache) [].

Definition no_sitemap_run : Run :=
  @index _ no_sitemap fifo None (Some true) (Stored old_cache) [].

(** ** src/index.ts, lines 159-163: the per-status report *)

(** [pagesPerIndexingStatus[indexingStatus]] *)
Fixpoint perStatus_get (pps : PerStatus) (s : IndexingStatus) : list Url :=
  match pps with
  | [] => []
  | (k, urls) :: rest =>
      if IndexingStatus_eqb k s then urls else perStatus_get rest s
  end.

(** The lines printed: one per status, in key order, statuses without a
    page skipped; each line gives the status and its number of pages. *)
Definition report (pps : PerStatus) : list (IndexingStatus * nat) :=
  flat_map (fun indexingStatus =>
              let pages := perStatus_get pps indexingStatus in
              if (List.length pages =? 0)%nat then []
              else [(indexingStatus, List.length pages)])
           (map fst pps).

(** The pages of a run as the batch stage leaves them in the report. *)
Definition reported (pps : PerStatus) : list Url :=
  flat_map (perStatus_get pps) (map fst pps).

(** ** part_001: the pipeline of the second variant *)

Module Part001Run.

(** The values of [statusPerUrl]. *)
Record Result : Type := mkResult {
  status : IndexingStatus;
  lastCheckedAt : TimeValue
}.

Definition StatusPerUrl : Type := list (Url * Result).

(** [statusPerUrl[url]] *)
Fixpoint statusPerUrl_get (m : StatusPerUrl) (url : Url) : option Result :=
  match m with
  | [] => None
  | (k, r) :: rest =>
      if String.eqb k url then Some r else statusPerUrl_get rest url
  end.

(** [statusPerUrl[url] = result] *)
Fixpoint statusPerUrl_set (m : StatusPerUrl) (url : Url) (result : Result)
  : StatusPerUrl :=
  match m with
  | [] => [(url, result)]
  | (k, r) :: rest =>
      if String.eqb k url then (k, result) :: rest
      else (k, r) :: statusPerUrl_set rest url result
  end.

Inductive CacheFile : Type :=
| Absent
| Malformed
| Stored (statusPerUrl : StatusPerUrl).

(** Lines 112-114. *)
Definition loadCache (file : CacheFile) : option StatusPerUrl :=
  match file with
  | Absent => Some []
  | Malformed => None
  | Stored m => Some m
  end.

Inductive Event : Type :=
| CallGetSitemapPages
| ReadCacheFile
| CallGetPageIndexingStatus (url : Url) (result : IndexingStatus)
| BatchComplete (batchIndex batchCount : nat)
| MakeCacheDir
| WriteCacheFile (statusPerUrl : StatusPerUrl)
| CallGetPublishMetadata (url : Url) (retriesOnRateLimit : nat) (result : Z)
| CallRequestIndexing (url : Url)
| ProcessExit (code : Z).

Definition checkedUrls (trace : list Event) : list Url :=
  flat_map (fun e => match e with
                     | CallGetPageIndexingStatus url _ => [url]
                     | _ => []
                     end) trace.

Definition queriedUrls (trace : list Event) : list Url :=
  flat_map (fun e => match e with
                     | CallGetPublishMetadata url _ _ => [url]
                     | _ => []
                     end) trace.

Definition requestedUrls (trace : list Event) : list Url :=
  flat_map (fun e => match e with
                     | CallRequestIndexing url => [url]
                     | _ => []
                     end) trace.

Section Pipeline.
Context {World : Type} {C : Collaborators World}.

Record State : Type := mkState {
  world : World;
  statusPerUrl : StatusPerUrl;
  pagesPerStatus : PerStatus;
  events : list Event
}.

(** Lines 93-110; [getSitemapPages] is the collaborator that [src/index.ts]
    calls [getSitemapUrls]. *)
Definition enumeratePages (options_urls : option (list Url)) (w : World)
  : (Z + list Url) * World * list Event :=
  let pages := match options_urls with Some l => l | None => [] end in
  if (List.length pages =? 0)%nat then
    let '((sitemaps, pagesFromSitemaps), w1) := getSitemapUrls w in
    if (List.length sitemaps =? 0)%nat then
      (inl 1, w1, [CallGetSitemapPages; ProcessExit 1])
    else
      (inr pagesFromSitemaps, w1, [CallGetSitemapPages])
  else
    (inr (checkCustomUrls pages), w, []).

(** The rest of the worker after [await getPageIndexingStatus(...)]. *)
Definition recheck (url : Url) (s : State) : State :=
  let '(status, w1) := getPageIndexingStatus (world s) url in
  let '(t, w2) := dateNow w1 in
  let result := {| status := status; lastCheckedAt := Ms t |} in
  {| world := w2;
     statusPerUrl := statusPerUrl_set (statusPerUrl s) url result;
     pagesPerStatus := perStatus_push (pagesPerStatus s) status url;
     events := events s ++ [CallGetPageIndexingStatus url status] |}.

(** Lines 146-157, the task given to [batch]. *)
Definition worker : @Task State :=
  fun url _ _ _ s =>
    match statusPerUrl_get (statusPerUrl s) url with
    | None => (s, Some (recheck url))
    | Some result =>
        let '(now, w1) := dateNow (world s) in
        let s1 := {| world := w1;
                     statusPerUrl := statusPerUrl s;
                     pagesPerStatus := pagesPerStatus s;
                     events := events s |} in
        if Part001.shouldRecheck now (status result) (lastCheckedAt result)
        then (s1, Some (recheck url))
        else
          ({| world := w1;
              statusPerUrl := statusPerUrl s;
              pagesPerStatus :=
                perStatus_push (pagesPerStatus s) (status result) url;
              events := events s |}, None)
    end.

Definition onBatchComplete (batchIndex batchCount : nat) (s : State)
  : State :=
  {| world := world s;
     statusPerUrl := statusPerUrl s;
     pagesPerStatus := pagesPerStatus s;
     events := events s ++ [BatchComplete batchIndex batchCount] |}.

(** Lines 177-179: [Object.entries(pagesPerStatus).flatMap(...)]. *)
Definition indexablePages (pagesPerStatus : PerStatus) : list Url :=
  flat_map (fun entry : IndexingStatus * list Url =>
              let '(status, pages) := entry in
              if includes Part001.indexableStatuses status then pages else [])
           pagesPerStatus.

(** Lines 188-200. *)
Fixpoint submitAll (rpmRetry : option bool) (queue : list Url) (w : World)
  : World * list Event :=
  match queue with
  | [] => (w, [])
  | url :: rest =>
      let retriesOnRateLimit :=
        if truthy rpmRetry then QUOTA.rpm.retries else 0%nat in
      let '(status, w1) := getPublishMetadata w url retriesOnRateLimit in
      let '(w2, requested) :=
        if status =? 404 then (requestIndexing w1 url, [CallRequestIndexing url])
        else (w1, []) in
      let '(w3, later) := submitAll rpmRetry rest w2 in
      (w3, CallGetPublishMetadata url retriesOnRateLimit status
             :: requested ++ later)
  end.

Record Run : Type := mkRun {
  outcome : Outcome;
  trace : list Event;
  cacheFile : CacheFile;
  finalWorld : World;
  savedStatuses : StatusPerUrl;   (* [statusPerUrl] when the run ends *)
  report : PerStatus;             (* [pagesPerStatus] when the run ends *)
  queue : list Url                (* [indexablePages] *)
}.

(** Lines 93-205: the run once the site and the token are resolved. *)
Definition index (sched : Scheduler) (options_urls : option (list Url))
           (rpmRetry : option bool) (file : CacheFile) (w : World) : Run :=
  match enumeratePages options_urls w with
  | (inl code, w1, ev) =>
      {| outcome := Exited code; trace := ev; cacheFile := file;
         finalWorld := w1; savedStatuses := []; report := []; queue := [] |}
  | (inr pages, w1, ev) =>
      let reads := match file with Absent => [] | _ => [ReadCacheFile] end in
      match loadCache file with
      | None =>
          {| outcome := Threw; trace := ev ++ reads; cacheFile := file;
             finalWorld := w1; savedStatuses := []; report := [];
             queue := [] |}
      | Some loaded =>
          let s0 := {| world := w1; statusPerUrl := loaded;
                       pagesPerStatus := pagesPerIndexingStatus_init;
                       events := ev ++ reads |} in
          let batchSize := 50%nat in
          let s1 := batch sched worker pages batchSize onBatchComplete s0 in
          let written := [MakeCacheDir; WriteCacheFile (statusPerUrl s1)] in
          let indexablePages := indexablePages (pagesPerStatus s1) in
          let '(w2, submissions) :=
            submitAll rpmRetry indexablePages (world s1) in
          {| outcome := Finished;
             trace := events s1 ++ written ++ submissions;
             cacheFile := Stored (statusPerUrl s1);
             finalWorld := w2;
             savedStatuses := statusPerUrl s1;
             report := pagesPerStatus s1;
             queue := indexablePages |}
      end
  end.
End Pipeline.

End Part001Run.

(** ** src/index.ts, lines 41-78: input, options, credentials *)

Module Entry.

(** A string that may be [undefined]; the empty string is falsy too. *)
Definition truthyString (s : option string) : bool :=
  match s with
  | Some s => negb (String.eqb s "")
  | None => false
  end.

(** [a || b] on two such strings. *)
Definition orElse (a b : option string) : option string :=
  if truthyString a then a else b.

(** [s.split(",")] *)
Fixpoint split_comma (s : string) : list string :=
  match s with
  | EmptyString => [EmptyString]
  | String c rest =>
      if Ascii.eqb c ","%char then EmptyString :: split_comma rest
      else match split_comma rest with
           | [] => [String c EmptyString]
           | piece :: pieces => String c piece :: pieces
           end
  end.

Record Quota : Type := mkQuota {
  rpmRetry : option bool
}.

Record IndexOptions : Type := mkOptions {
  client_email : option string;
  private_key : option string;
  path : option string;
  urls : option (list string);
  quota : option Quota
}.

(** [x === "true"], [x] possibly undefined. *)
Definition isTrue (x : option string) : bool :=
  match x with
  | Some s => String.eqb s "true"
  | None => false
  end.

(** Lines 48-65.  [args] is the parsed command line, [env] is
    [process.env]; an array and an object are truthy whatever they hold. *)
Definition resolveOptions (options : IndexOptions)
           (args env : string -> option string) : IndexOptions :=
  {| client_email :=
       if negb (truthyString (client_email options))
       then orElse (args "client-email"%string) (env "GIS_CLIENT_EMAIL"%string)
       else client_email options;
     private_key :=
       if negb (truthyString (private_key options))
       then orElse (args "private-key"%string) (env "GIS_PRIVATE_KEY"%string)
       else private_key options;
     path :=
       if negb (truthyString (path options))
       then orElse (args "path"%string) (env "GIS_PATH"%string)
       else path options;
     urls :=
       match urls options with
       | Some l => Some l
       | None =>
           if truthyString (args "urls"%string)
           then match args "urls"%string with
                | Some s => Some (split_comma s)
                | None => None
                end
           else None
       end;
     quota :=
       match quota options with
       | Some q => Some q
       | None =>
           Some {| rpmRetry :=
                     Some (isTrue (args "rpm-retry"%string)
                           || isTrue (env "GIS_QUOTA_RPM_RETRY"%string)) |}
       end |}.

(** [options.quota.rpmRetry] once the options are resolved. *)
Definition quota_rpmRetry (options : IndexOptions) : option bool :=
  match quota options with
  | Some q => rpmRetry q
  | None => None
  end.

(** What happens before the URLs are enumerated. *)
Inductive EntryEvent : Type :=
| CallGetAccessToken (client_email private_key path : option string)
| CallCheckSiteUrl (accessToken siteUrl : string)
| Stage (e : Event).

(** The collaborators of lines 67-78, and those of the stages that follow
    once the token and the site are known. *)
Class Access (World : Type) : Type := {
  (** [getAccessToken(client_email, private_key, path)]; [None] is a falsy
      token. *)
  getAccessToken :
    World -> option string -> option string -> option string ->
    option string * World;
  (** [convertToSiteUrl(input)] *)
  convertToSiteUrl : string -> string;
  (** [path.join(".cache", `${convertToFilePath(siteUrl)}.json`)] *)
  cachePathOf : string -> string;
  (** [checkSiteUrl(accessToken, siteUrl)].  Modelled from the spec:
      section 6 has it end the run when the principal lacks access; [inl
      code] is that exit. *)
  checkSiteUrl : World -> string -> string -> (Z + string) * World;
  (** The collaborators bound to a token and a checked site URL. *)
  services : string -> string -> Collaborators World
}.

(** The cache files, by path. *)
Definition FileSystem : Type := string -> CacheFile.

Definition writeFile (fs : FileSystem) (path : string) (file : CacheFile)
  : FileSystem :=
  fun p => if String.eqb p path then file else fs p.

Record EntryRun (World : Type) : Type := mkEntryRun {
  entry_outcome : Outcome;
  entry_trace : list EntryEvent;
  entry_files : FileSystem;
  entry_world : World
}.
Arguments entry_outcome {World} _.
Arguments entry_trace {World} _.
Arguments entry_files {World} _.
Arguments entry_world {World} _.

Section EntryPoint.
Context {World : Type} {A : Access World}.

(** Lines 41-197, [index] as it is exported: [input] is the first
    argument, or [process.argv[2]] when it is left out. *)
Definition indexFrom (sched : Scheduler) (input : option string)
           (options : IndexOptions) (args env : string -> option string)
           (fs : FileSystem) (w : World) : EntryRun World :=
  match input with
  | Some site =>
      if String.eqb site "" then
        {| entry_outcome := Exited 1; entry_trace := [];
           entry_files := fs; entry_world := w |}
      else
        let options := resolveOptions options args env in
        let '(accessToken, w1) :=
          getAccessToken w (client_email options) (private_key options)
                         (path options) in
        let called :=
          [CallGetAccessToken (client_email options) (private_key options)
                              (path options)] in
        let siteUrl := convertToSiteUrl site in
        let cachePath := cachePathOf siteUrl in
        match accessToken with
        | Some token =>
            if String.eqb token "" then
              {| entry_outcome := Exited 1; entry_trace := called;
                 entry_files := fs; entry_world := w1 |}
            else
              match checkSiteUrl w1 token siteUrl with
              | (inl code, w2) =>
                  {| entry_outcome := Exited code;
                     entry_trace := called ++ [CallCheckSiteUrl token siteUrl];
                     entry_files := fs; entry_world := w2 |}
              | (inr checked, w2) =>
                  let run :=
                    @index World (services token checked) sched
                           (urls options) (quota_rpmRetry options)
                           (fs cachePath) w2 in
                  {| entry_outcome := outcome run;
                     entry_trace :=
                       called ++ [CallCheckSiteUrl token siteUrl]
                              ++ map Stage (trace run);
                     entry_files := writeFile fs cachePath (cacheFile run);
                     entry_world := finalWorld run |}
              end
        | None =>
            {| entry_outcome := Exited 1; entry_trace := called;
               entry_files := fs; entry_world := w1 |}
        end
  | None =>
      {| entry_outcome := Exited 1; entry_trace := [];
         entry_files := fs; entry_world := w |}
  end.
End EntryPoint.

End Entry.

(** ** More scripted runs *)

(** A cache in which the three pages of the scenario are settled: checked a
    day before [scenario_now], none of them Failed. *)
Definition settled_cache : Pages :=
  [ (page_a, {| status := Pending;
                indexingStatus := DiscoveredCurrentlyNotIndexed;
                lastCheckedAt := Ms (scenario_now - 86400000) |});
    (page_b, {| status := Completed;
                indexingStatus := SubmittedAndIndexed;
                lastCheckedAt := Ms (scenario_now - 86400000) |});
    (page_c, {| status := Completed;
                indexingStatus := PageWithRedirect;
                lastCheckedAt := Ms (scenario_now - 86400000) |}) ].

Definition settled_run : Run :=
  @index _ scenario lifo None None (Stored settled_cache) [].

(** part_001 on the scenario, with a cache that holds one page found
    indexed long ago and not listed by the sitemap any more. *)
Definition variant_cache : Part001Run.StatusPerUrl :=
  [ (page_old, {| Part001Run.status := SubmittedAndIndexed;
                  Part001Run.lastCheckedAt := Ms 0 |}) ].

Definition variant_run : Part001Run.Run :=
  @Part001Run.index _ scenario fifo None None
                    (Part001Run.Stored variant_cache) [].

(** The same, with a cache that holds a page of the sitemap found indexed
    long ago. *)
Definition variant_listed_cache : Part001Run.StatusPerUrl :=
  [ (page_b, {| Part001Run.status := SubmittedAndIndexed;
                Part001Run.lastCheckedAt := Ms 0 |}) ].

Definition variant_listed_run : Part001Run.Run :=
  @Part001Run.index _ scenario fifo None None
                    (Part001Run.Stored variant_listed_cache) [].

(** An entry into [index] with the scenario behind it: a token is issued
    whenever a client e-mail is given, every site is accessible. *)
Definition scripted_access : Entry.Access (list Url) :=
  {| Entry.getAccessToken :=
       fun w client_email _ _ =>
         (if Entry.truthyString client_email then Some "token"%string else None,
          w);
     Entry.convertToSiteUrl := fun input => ("sc-domain:" ++ input)%string;
     Entry.cachePathOf := fun siteUrl => (".cache/" ++ siteUrl ++ ".json")%string;
     Entry.checkSiteUrl := fun w _ siteUrl => (inr siteUrl, w);
     Entry.services := fun _ _ => scenario |}.

Definition no_options : Entry.IndexOptions :=
  {| Entry.client_email := None; Entry.private_key := None;
     Entry.path := None; Entry.urls := None; Entry.quota := None |}.

Definition nothing_set : string -> option string := fun _ => None.

(** [--client-email bot@example.com --urls <page_a>,<page_b>] *)
Definition urls_on_command_line (flag : string) : option string :=
  if String.eqb flag "urls"
  then Some "https://example.com/a,https://example.com/b"%string
  else if String.eqb flag "client-email" then Some "bot@example.com"%string
  else None.

Definition no_files : Entry.FileSystem := fun _ => Absent.

Definition command_line_run : Entry.EntryRun (list Url) :=
  @Entry.indexFrom _ scripted_access fifo (Some "example.com"%string)
                   no_options urls_on_command_line nothing_set no_files [].

Definition no_credentials_run : Entry.EntryRun (list Url) :=
  @Entry.indexFrom _ scripted_access fifo (Some "example.com"%string)
                   no_options nothing_set nothing_set no_files [].

(** ** Facts about the enumerations *)

Lemma IndexingStatus_eqb_eq (a b : IndexingStatus) :
  IndexingStatus_eqb a b = true <-> a = b.
Proof.
  split.
  - destruct a, b; intro H; try reflexivity; vm_compute in H; discriminate H.
  - intros ->. apply String.eqb_refl.
Qed.

Lemma PageStatus_eqb_eq (a b : PageStatus) :
  PageStatus_eqb a b = true <-> a = b.
Proof.
  split.
  - destruct a, b; intro H; try reflexivity; vm_compute in H; discriminate H.
  - intros ->. apply String.eqb_refl.
Qed.

Lemma includes_In (l : list IndexingStatus) (s : IndexingStatus) :
  includes l s = true <-> In s l.
Proof.
  unfold includes. rewrite existsb_exists. split.
  - intros (x & Hin & Heq). apply IndexingStatus_eqb_eq in Heq. now subst.
  - intros Hin. exists s. split; [assumption | now apply IndexingStatus_eqb_eq].
Qed.

Lemma isOld_lt (now : Z) (d : TimeValue) :
  isOld now d = true <-> exists t, d = Ms t /\ t < now - CACHE_TIMEOUT.
Proof.
  unfold isOld, date_lt. destruct d as [t|].
  - rewrite Z.ltb_lt. split.
    + intros H. now exists t.
    + intros (t' & [= <-] & H). exact H.
  - split; [discriminate | intros (t & [=] & _)].
Qed.

(** ** Claims on the pure decision functions *)

(** C1. The classifier is defined on each of the nine raw statuses, and its
    value is: Pending on Discovered/Crawled-currently-not-indexed, URL
    unknown, Forbidden and Error; Failed on RateLimited; Completed on
    Submitted-and-indexed, Duplicate-without-canonical and Page-with-redirect. *)
Theorem classify_table (s : IndexingStatus) :
  classify s =
  match s with
  | DiscoveredCurrentlyNotIndexed
  | CrawledCurrentlyNotIndexed
  | URLIsUnknownToGoogle
  | Forbidden
  | Error => Pending
  | RateLimited => Failed
  | SubmittedAndIndexed
  | DuplicateWithoutUserSelectedCanonical
  | PageWithRedirect => Completed
  end.
Proof. destruct s; reflexivity. Qed.

(** C2. Failure-or-age policy of [src/index.ts]: an entry is rechecked
    exactly when its status is Failed or its [lastCheckedAt] lies more than
    14 days (1209600000 ms) before now. *)
Theorem shouldRecheck_failure_or_age (now : Z) (page : Page) :
  CACHE_TIMEOUT = 14 * 24 * 60 * 60 * 1000 /\
  (shouldRecheck now page = true <->
   status page = Failed \/
   exists t, lastCheckedAt page = Ms t /\ t < now - CACHE_TIMEOUT).
Proof.
  split; [reflexivity|].
  unfold shouldRecheck. rewrite orb_true_iff, isOld_lt, PageStatus_eqb_eq.
  tauto.
Qed.

(** C3. Indexable-and-age policy of the second variant: an entry is
    rechecked exactly when its status is one of the six indexable statuses
    (RateLimited included) and it is older than 14 days; an entry that is
    Submitted-and-indexed is never rechecked, whatever its age. *)
Theorem shouldRecheck_indexable_and_age
        (now : Z) (st : IndexingStatus) (checkedAt : TimeValue) :
  (Part001.shouldRecheck now st checkedAt = true <->
   In st [ DiscoveredCurrentlyNotIndexed; CrawledCurrentlyNotIndexed;
           URLIsUnknownToGoogle; Forbidden; Error; RateLimited ] /\
   exists t, checkedAt = Ms t /\ t < now - CACHE_TIMEOUT) /\
  Part001.shouldRecheck now SubmittedAndIndexed checkedAt = false.
Proof.
  split.
  - unfold Part001.shouldRecheck.
    rewrite andb_true_iff, isOld_lt, includes_In. reflexivity.
  - reflexivity.
Qed.

(** C8. An entry checked exactly 14 days before now is fresh in both
    variants ([isOld] is a strict comparison), and one checked a millisecond
    before that is old in both: in [src/index.ts] the boundary entry is
    rechecked only if it is Failed, in the second variant it never is; one
    millisecond before, the age test passes in both. *)
Theorem staleness_boundary
        (now : Z) (st : PageStatus) (ist : IndexingStatus) :
  let boundary := Ms (now - CACHE_TIMEOUT) in
  let before := Ms (now - CACHE_TIMEOUT - 1) in
  isOld now boundary = false /\
  isOld now before = true /\
  shouldRecheck now (mkPage st ist boundary) = PageStatus_eqb st Failed /\
  Part001.shouldRecheck now ist boundary = false /\
  shouldRecheck now (mkPage st ist before) = true /\
  Part001.shouldRecheck now ist before = includes Part001.indexableStatuses ist.
Proof.
  intros boundary before.
  assert (Hb : isOld now boundary = false)
    by (unfold isOld, date_lt; apply Z.ltb_irrefl).
  assert (Ho : isOld now before = true)
    by (unfold isOld, date_lt; apply Z.ltb_lt; lia).
  unfold shouldRecheck, Part001.shouldRecheck. cbn [status lastCheckedAt].
  rewrite Hb, Ho, andb_false_r, andb_true_r. cbn [orb]. tauto.
Qed.

(** ** Facts about the cache object *)

Lemma pages_get_set_same (ps : Pages) (u : Url) (p : Page) :
  pages_get (pages_set ps u p) u = Some p.
Proof.
  induction ps as [|[k q] ps IH]; simpl.
  - now rewrite String.eqb_refl.
  - destruct (String.eqb k u) eqn:E; simpl; now rewrite E.
Qed.

Lemma pages_get_set_other (ps : Pages) (u v : Url) (p : Page) :
  u <> v -> pages_get (pages_set ps u p) v = pages_get ps v.
Proof.
  intros Hne. induction ps as [|[k q] ps IH]; simpl.
  - destruct (String.eqb u v) eqn:E; [|reflexivity].
    apply String.eqb_eq in E. contradiction.
  - destruct (String.eqb k u) eqn:E; simpl.
    + apply String.eqb_eq in E. subst k.
      destruct (String.eqb u v) eqn:E2; [|reflexivity].
      apply String.eqb_eq in E2. contradiction.
    + now rewrite IH.
Qed.

Lemma pages_get_keys (ps : Pages) (u : Url) :
  In u (pages_keys ps) <-> exists p, pages_get ps u = Some p.
Proof.
  induction ps as [|[k q] ps IH]; simpl.
  - split; [contradiction | intros [p Hp]; discriminate].
  - destruct (String.eqb k u) eqn:E.
    + apply String.eqb_eq in E. split; [now exists q | now left].
    + rewrite <- IH. split; [|now right].
      intros [H|H]; [|assumption]. subst k. now rewrite String.eqb_refl in E.
Qed.

Lemma pages_keys_set (ps : Pages) (u v : Url) (p : Page) :
  In v (pages_keys (pages_set ps u p)) <-> v = u \/ In v (pages_keys ps).
Proof.
  rewrite !pages_get_keys. destruct (String.eqb u v) eqn:E.
  - apply String.eqb_eq in E. subst v. rewrite pages_get_set_same.
    split; [now left | now exists p].
  - apply String.eqb_neq in E. rewrite pages_get_set_other by assumption.
    split; [now right | intros [H|H]; [now subst | assumption]].
Qed.

Lemma selectQueue_In (ps : Pages) (u : Url) :
  In u (selectQueue ps) <->
  exists p, pages_get ps u = Some p /\ status p = Pending.
Proof.
  unfold selectQueue. rewrite filter_In, pages_get_keys. split.
  - intros [[p Hp] H]. rewrite Hp in H. exists p. split; [assumption|].
    now apply PageStatus_eqb_eq.
  - intros (p & Hp & Hst). split; [now exists p|].
    rewrite Hp. now apply PageStatus_eqb_eq.
Qed.

(** ** Invariants of [batch] *)

Lemma firstn_incl {A : Type} (n : nat) (l : list A) : incl (firstn n l) l.
Proof.
  intros x Hx. rewrite <- (firstn_skipn n l). apply in_or_app. now left.
Qed.

Lemma skipn_incl {A : Type} (n : nat) (l : list A) : incl (skipn n l) l.
Proof.
  intros x Hx. rewrite <- (firstn_skipn n l). apply in_or_app. now right.
Qed.

Lemma createChunks_fuel_incl (fuel : nat) (items : list Url) (n : nat)
      (c : list Url) :
  In c (createChunks_fuel fuel items n) -> incl c items.
Proof.
  revert items. induction fuel as [|fuel IH]; intros items; simpl.
  - contradiction.
  - destruct items as [|u items]; [contradiction|].
    intros [<-|H].
    + apply firstn_incl.
    + apply IH in H. intros x Hx. eapply skipn_incl. apply H, Hx.
Qed.

(** The fuel of [createChunks] is enough: no item is lost or repeated. *)
Lemma createChunks_fuel_concat (fuel : nat) (items : list Url) (n : nat) :
  (0 < n)%nat -> (List.length items <= fuel)%nat ->
  List.concat (createChunks_fuel fuel items n) = items.
Proof.
  intros Hn. revert items.
  induction fuel as [|fuel IH]; intros items Hlen.
  - destruct items; [reflexivity | cbn [List.length] in Hlen; lia].
  - destruct items as [|u items]; [reflexivity|].
    cbn [createChunks_fuel List.concat]. rewrite IH.
    + apply firstn_skipn.
    + rewrite length_skipn. cbn [List.length] in *. lia.
Qed.

Lemma createChunks_concat (items : list Url) (n : nat) :
  (0 < n)%nat -> List.concat (createChunks items n) = items.
Proof.
  intros Hn. apply createChunks_fuel_concat; [assumption | apply Nat.le_refl].
Qed.

Section BatchInvariant.
Context {St : Type} (P : St -> Prop).
Variable task : @Task St.
Variable items : list Url.
Variable complete : nat -> nat -> St -> St.

Hypothesis task_inv :
  forall url i b n s, In url items -> P s ->
    P (fst (task url i b n s)) /\
    forall k, snd (task url i b n s) = Some k -> forall s', P s' -> P (k s').
Hypothesis complete_inv : forall b n s, P s -> P (complete b n s).

Lemma dispatch_inv (chunk : list Url) (i b n : nat) (s : St) :
  incl chunk items -> P s ->
  P (fst (dispatch task chunk i b n s)) /\
  Forall (fun k => forall s', P s' -> P (k s'))
         (snd (dispatch task chunk i b n s)).
Proof.
  revert i s. induction chunk as [|url rest IH]; intros i s Hincl Hs; simpl.
  - split; [assumption | constructor].
  - destruct (task_inv url i b n s) as [H1 H2];
      [apply Hincl; now left | assumption |].
    destruct (task url i b n s) as [s1 k]. simpl in H1, H2.
    destruct (IH (S i) s1) as [H3 H4];
      [intros x Hx; apply Hincl; now right | assumption |].
    destruct (dispatch task rest (S i) b n s1) as [s2 ks].
    simpl in *. split; [assumption|].
    destruct k as [k|]; [constructor; eauto | assumption].
Qed.

Lemma resumeAll_inv (ks : list (St -> St)) (s : St) :
  Forall (fun k => forall s', P s' -> P (k s')) ks ->
  P s -> P (resumeAll ks s).
Proof.
  unfold resumeAll. revert s.
  induction ks as [|k ks IH]; intros s Hks Hs; simpl; [assumption|].
  inversion Hks; subst. apply IH; auto.
Qed.

Lemma runChunks_inv (sched : Scheduler) (chunks : list (list Url))
      (b n : nat) (s : St) :
  (forall c, In c chunks -> incl c items) -> P s ->
  P (runChunks sched task complete chunks b n s).
Proof.
  revert b s. induction chunks as [|c rest IH]; intros b s Hc Hs; simpl.
  - assumption.
  - destruct (dispatch_inv c 0 b n s) as [H1 H2];
      [apply Hc; now left | assumption |].
    destruct (dispatch task c 0 b n s) as [s1 ks]. simpl in H1, H2.
    apply IH; [intros c' Hc'; apply Hc; now right|].
    apply complete_inv, resumeAll_inv; [|assumption].
    eapply Permutation_Forall; [|exact H2].
    apply Permutation_sym, settle_perm.
Qed.

Lemma batch_inv (sched : Scheduler) (size : nat) (s : St) :
  P s -> P (batch sched task items size complete s).
Proof.
  unfold batch, createChunks. apply runChunks_inv.
  intros c. apply createChunks_fuel_incl.
Qed.
End BatchInvariant.

(** ** The submission loop *)

Section SubmissionFacts.
Context {World : Type} {C : Collaborators World}.

Lemma submitAll_cons (rpmRetry : option bool) (url : Url) (rest : list Url)
      (w : World) :
  let retries := if truthy rpmRetry then QUOTA.rpm.retries else 0%nat in
  let status := fst (getPublishMetadata w url retries) in
  let w1 := snd (getPublishMetadata w url retries) in
  let w2 := if status =? 404 then requestIndexing w1 url else w1 in
  submitAll rpmRetry (url :: rest) w =
  (fst (submitAll rpmRetry rest w2),
   CallGetPublishMetadata url retries status
     :: (if status =? 404 then [CallRequestIndexing url] else [])
     ++ snd (submitAll rpmRetry rest w2)).
Proof.
  simpl. destruct (getPublishMetadata w url _) as [status w1]. simpl.
  destruct (status =? 404);
    match goal with
    | |- context [submitAll ?r ?q ?x] => destruct (submitAll r q x)
    end; reflexivity.
Qed.

Lemma submitAll_submissions (rpmRetry : option bool) (q : list Url)
      (w : World) :
  Forall (fun e => isSubmission e = true) (snd (submitAll rpmRetry q w)).
Proof.
  revert w. induction q as [|url rest IH]; intros w.
  - constructor.
  - rewrite submitAll_cons. cbv zeta. cbn [snd].
    constructor; [reflexivity|]. apply Forall_app. split; [|apply IH].
    destruct (_ =? 404); repeat constructor.
Qed.

(** The metadata calls of the loop are the queue, each with the budget. *)
Lemma submitAll_queried (rpmRetry : option bool) (q : list Url) (w : World) :
  queriedUrls (snd (submitAll rpmRetry q w)) =
  map (fun url => (url, if truthy rpmRetry then QUOTA.rpm.retries else 0%nat))
      q.
Proof.
  revert w. induction q as [|url rest IH]; intros w.
  - reflexivity.
  - rewrite submitAll_cons. cbv zeta. cbn [snd].
    unfold queriedUrls in *. cbn [flat_map app map].
    rewrite flat_map_app, IH. f_equal.
    destruct (_ =? 404); reflexivity.
Qed.

Lemma submitAll_request_iff (rpmRetry : option bool) (q : list Url)
      (w : World) (u : Url) :
  In (CallRequestIndexing u) (snd (submitAll rpmRetry q w)) <->
  exists r, In (CallGetPublishMetadata u r 404) (snd (submitAll rpmRetry q w)).
Proof.
  revert w. induction q as [|url rest IH]; intros w.
  - simpl. split; [contradiction | intros [r []]].
  - rewrite submitAll_cons. cbv zeta. cbn [snd].
    set (st := fst (getPublishMetadata w url _)).
    set (w2 := if st =? 404 then requestIndexing _ _ else _).
    specialize (IH w2). split.
    + intros [H|H]; [discriminate|].
      apply in_app_or in H. destruct H as [H|H].
      * destruct (st =? 404) eqn:E; [|contradiction].
        destruct H as [H|[]]. injection H as ->.
        apply Z.eqb_eq in E. rewrite E. eexists. left. reflexivity.
      * apply IH in H. destruct H as [r H]. exists r. right.
        apply in_or_app. now right.
    + intros [r [H|H]].
      * injection H as -> _ E. right. apply in_or_app. left.
        rewrite E. simpl. now left.
      * apply in_app_or in H. destruct H as [H|H].
        -- destruct (st =? 404); [destruct H as [H|[]]; discriminate | contradiction].
        -- right. apply in_or_app. right. apply IH. now exists r.
Qed.

Section WorldInvariant.
Variable Q : World -> Prop.
Hypothesis metadata_inv :
  forall w url r, Q w -> Q (snd (getPublishMetadata w url r)).
Hypothesis request_inv : forall w url, Q w -> Q (requestIndexing w url).

Lemma submitAll_world_inv (rpmRetry : option bool) (q : list Url)
      (w : World) :
  Q w -> Q (fst (submitAll rpmRetry q w)).
Proof.
  revert w. induction q as [|url rest IH]; intros w Hw.
  - assumption.
  - rewrite submitAll_cons. cbv zeta. cbn [fst]. apply IH.
    destruct (_ =? 404); auto.
Qed.
End WorldInvariant.
End SubmissionFacts.

(** ** The batch stage *)

Ltac worker_cases s url :=
  unfold worker;
  destruct (pages_get (pages s) url) as [?page|] eqn:?Hget;
  [ destruct (dateNow (world s)) as [?now ?w] eqn:?Hnow;
    match goal with
    | |- context [shouldRecheck ?n ?p] =>
        destruct (shouldRecheck n p) eqn:?Hrecheck
    end
  | ];
  cbn [fst snd world pages pagesPerIndexingStatus events].

Section BatchStage.
Context {World : Type} {C : Collaborators World}.

Lemma recheck_events (url : Url) (s : State) :
  events (recheck url s) =
  events s ++ [CallGetPageIndexingStatus
                 url (fst (getPageIndexingStatus (world s) url))].
Proof.
  unfold recheck. destruct (getPageIndexingStatus _ _) as [st w1].
  destruct (dateNow w1). reflexivity.
Qed.

Lemma recheck_world (url : Url) (s : State) :
  world (recheck url s) =
  snd (dateNow (snd (getPageIndexingStatus (world s) url))).
Proof.
  unfold recheck. destruct (getPageIndexingStatus _ _) as [st w1].
  cbn [fst snd]. destruct (dateNow w1). reflexivity.
Qed.

Lemma recheck_pages (url : Url) (s : State) :
  let st := fst (getPageIndexingStatus (world s) url) in
  let w1 := snd (getPageIndexingStatus (world s) url) in
  pages (recheck url s) =
  pages_set (pages s) url
            {| status := classify st; indexingStatus := st;
               lastCheckedAt := Ms (fst (dateNow w1)) |}.
Proof.
  unfold recheck. destruct (getPageIndexingStatus _ _) as [st w1].
  cbn [fst snd]. destruct (dateNow w1). reflexivity.
Qed.

(** A task that is suspended is suspended on the status check of its URL. *)
Lemma worker_suspended (url : Url) (i b n : nat) (s : State)
      (k : State -> State) :
  snd (worker url i b n s) = Some k -> k = recheck url.
Proof.
  worker_cases s url; intros H; congruence.
Qed.

Lemma worker_pages (url : Url) (i b n : nat) (s : State) :
  pages (fst (worker url i b n s)) = pages s.
Proof. worker_cases s url; reflexivity. Qed.

Lemma worker_events (url : Url) (i b n : nat) (s : State) :
  events (fst (worker url i b n s)) = events s.
Proof. worker_cases s url; reflexivity. Qed.

Lemma worker_world (url : Url) (i b n : nat) (s : State) :
  world (fst (worker url i b n s)) = world s \/
  world (fst (worker url i b n s)) = snd (dateNow (world s)).
Proof.
  worker_cases s url; [right | right | left]; reflexivity.
Qed.

(** A cached entry that is not stale is not checked again. *)
Lemma worker_fresh (url : Url) (i b n : nat) (s : State) (p : Page) :
  pages_get (pages s) url = Some p ->
  shouldRecheck (fst (dateNow (world s))) p = false ->
  snd (worker url i b n s) = None.
Proof.
  intros Hp Hfresh. unfold worker. rewrite Hp.
  destruct (dateNow (world s)) as [now w1]. cbn [fst] in Hfresh.
  now rewrite Hfresh.
Qed.

(** The batch stage only appends status checks and batch completions. *)
Lemma batch_events (sched : Scheduler) (urls : list Url) (size : nat)
      (s : State) :
  exists evs,
    events (batch sched worker urls size onBatchComplete s) = events s ++ evs
    /\ Forall (fun e => isBatchEvent e = true) evs.
Proof.
  apply (batch_inv
           (fun s' => exists evs, events s' = events s ++ evs /\
                                  Forall (fun e => isBatchEvent e = true) evs)
           worker urls onBatchComplete).
  - intros url i b n s0 _ (evs & He & Hf). split.
    + exists evs. now rewrite worker_events.
    + intros k Hk s' (evs' & He' & Hf'). apply worker_suspended in Hk.
      subst k. exists (evs' ++ [CallGetPageIndexingStatus
                                  url (fst (getPageIndexingStatus (world s') url))]).
      rewrite recheck_events, He', app_assoc. split; [reflexivity|].
      apply Forall_app. split; [assumption | now repeat constructor].
  - intros b n s0 (evs & He & Hf). exists (evs ++ [BatchComplete b n]).
    cbn [onBatchComplete events]. rewrite He, app_assoc.
    split; [reflexivity|].
    apply Forall_app. split; [assumption | now repeat constructor].
  - exists []. now rewrite app_nil_r.
Qed.

(** What neither the clock nor a status check changes in the world, the
    batch stage does not change. *)
Lemma batch_world_inv (Q : World -> Prop) :
  (forall w url, Q w -> Q (snd (getPageIndexingStatus w url))) ->
  (forall w, Q w -> Q (snd (dateNow w))) ->
  forall (sched : Scheduler) (urls : list Url) (size : nat) (s : State),
    Q (world s) ->
    Q (world (batch sched worker urls size onBatchComplete s)).
Proof.
  intros Hstatus Hnow sched urls size s.
  apply (batch_inv (fun s' => Q (world s')) worker urls onBatchComplete).
  - intros url i b n s0 _ H0. split.
    + destruct (worker_world url i b n s0) as [-> | ->]; auto.
    + intros k Hk s' H'. apply worker_suspended in Hk. subst k.
      rewrite recheck_world. auto.
  - intros b n s0 H0. exact H0.
Qed.

(** Keys are never removed from the cache object. *)
Lemma batch_keys (sched : Scheduler) (urls : list Url) (size : nat)
      (s : State) (u : Url) :
  In u (pages_keys (pages s)) ->
  In u (pages_keys (pages (batch sched worker urls size onBatchComplete s))).
Proof.
  apply (batch_inv (fun s' => In u (pages_keys (pages s')))
                   worker urls onBatchComplete).
  - intros url i b n s0 _ H0. split.
    + now rewrite worker_pages.
    + intros k Hk s' H'. apply worker_suspended in Hk. subst k.
      rewrite recheck_pages. cbv zeta. apply pages_keys_set. now right.
  - intros b n s0 H0. exact H0.
Qed.

(** An entry whose URL is not among the items, or which is fresh whenever
    the clock is read, goes through the batch stage untouched and without
    a status check. *)
Lemma batch_untouched (sched : Scheduler) (urls : list Url) (size : nat)
      (s : State) (u : Url) (p : Page) :
  pages_get (pages s) u = Some p ->
  ~ In u urls \/ (forall w, shouldRecheck (fst (dateNow w)) p = false) ->
  let s1 := batch sched worker urls size onBatchComplete s in
  pages_get (pages s1) u = Some p /\
  exists evs, events s1 = events s ++ evs /\ ~ In u (checkedUrls evs).
Proof.
  intros Hp Hu. cbv zeta.
  apply (batch_inv
           (fun s' => pages_get (pages s') u = Some p /\
                      exists evs, events s' = events s ++ evs /\
                                  ~ In u (checkedUrls evs))
           worker urls onBatchComplete).
  - intros url i b n s0 Hurl [H0 (evs & He & Hn)]. split.
    + rewrite worker_pages, worker_events. split; [assumption|].
      now exists evs.
    + intros k Hk s' [H' (evs' & He' & Hn')].
      assert (Hne : url <> u).
      { intros ->. destruct Hu as [Hu|Hu]; [now apply Hu|].
        rewrite (worker_fresh u i b n s0 p H0 (Hu _)) in Hk. discriminate. }
      apply worker_suspended in Hk. subst k.
      rewrite recheck_pages, recheck_events. cbv zeta.
      rewrite pages_get_set_other by assumption. split; [assumption|].
      eexists. rewrite He', <- app_assoc. split; [reflexivity|].
      unfold checkedUrls in *. rewrite flat_map_app. cbn [flat_map app].
      intros Hin. apply in_app_or in Hin. destruct Hin as [Hin|[Hin|[]]];
        [now apply Hn' | now apply Hne].
  - intros b n s0 [H0 (evs & He & Hn)]. split; [exact H0|].
    exists (evs ++ [BatchComplete b n]).
    cbn [onBatchComplete events]. rewrite He, <- app_assoc.
    split; [reflexivity|].
    unfold checkedUrls in *. rewrite flat_map_app. cbn [flat_map app].
    now rewrite app_nil_r.
  - split; [assumption|]. exists []. now rewrite app_nil_r.
Qed.

Lemma checkedUrls_snoc (evs : list Event) (url : Url) (st : IndexingStatus) :
  checkedUrls (evs ++ [CallGetPageIndexingStatus url st]) =
  checkedUrls evs ++ [url].
Proof. unfold checkedUrls. now rewrite flat_map_app. Qed.

(** After the batch stage an entry is what it was, unless its URL was
    checked; then it is built from the answer of a status check of that
    URL and from a reading of the clock. *)
Lemma batch_pages (sched : Scheduler) (urls : list Url) (size : nat)
      (s : State) :
  let s1 := batch sched worker urls size onBatchComplete s in
  exists evs,
    events s1 = events s ++ evs /\
    forall u,
      (~ In u (checkedUrls evs) /\ pages_get (pages s1) u = pages_get (pages s) u)
      \/
      (In u (checkedUrls evs) /\
       exists w w', let st := fst (getPageIndexingStatus w u) in
         In (CallGetPageIndexingStatus u st) evs /\
         pages_get (pages s1) u =
         Some {| status := classify st; indexingStatus := st;
                 lastCheckedAt := Ms (fst (dateNow w')) |}).
Proof.
  cbv zeta.
  apply (batch_inv
           (fun s' => exists evs,
                events s' = events s ++ evs /\
                forall u,
                  (~ In u (checkedUrls evs) /\
                   pages_get (pages s') u = pages_get (pages s) u)
                  \/
                  (In u (checkedUrls evs) /\
                   exists w w',
                     In (CallGetPageIndexingStatus
                           u (fst (getPageIndexingStatus w u))) evs /\
                     pages_get (pages s') u =
                     Some {| status := classify (fst (getPageIndexingStatus w u));
                             indexingStatus := fst (getPageIndexingStatus w u);
                             lastCheckedAt := Ms (fst (dateNow w')) |}))
           worker urls onBatchComplete).
  - intros url i b n s0 _ (evs & He & Hu). split.
    + exists evs. rewrite worker_events, worker_pages. now split.
    + intros k Hk s' (evs' & He' & Hu'). apply worker_suspended in Hk.
      subst k.
      exists (evs' ++ [CallGetPageIndexingStatus
                         url (fst (getPageIndexingStatus (world s') url))]).
      rewrite recheck_events, He', app_assoc. split; [reflexivity|].
      intros u. rewrite checkedUrls_snoc, recheck_pages. cbv zeta.
      destruct (String.eqb url u) eqn:E.
      * apply String.eqb_eq in E. subst u. right.
        split; [apply in_or_app; right; now left|].
        exists (world s'), (snd (getPageIndexingStatus (world s') url)).
        split; [apply in_or_app; right; now left|].
        apply pages_get_set_same.
      * apply String.eqb_neq in E.
        rewrite pages_get_set_other by assumption.
        destruct (Hu' u) as [[Hn Hg] | [Hin (w & w' & Hev & Hg)]].
        -- left. split; [|assumption]. intros Hin.
           apply in_app_or in Hin. destruct Hin as [Hin|[Hin|[]]];
             [now apply Hn | now apply E].
        -- right. split; [apply in_or_app; now left|].
           exists w, w'. split; [apply in_or_app; now left | assumption].
  - intros b n s0 (evs & He & Hu). exists (evs ++ [BatchComplete b n]).
    cbn [onBatchComplete events pages]. rewrite He, app_assoc.
    split; [reflexivity|].
    assert (Hc : checkedUrls (evs ++ [BatchComplete b n]) = checkedUrls evs)
      by (unfold checkedUrls; rewrite flat_map_app; apply app_nil_r).
    intros u. rewrite Hc.
    destruct (Hu u) as [H | [Hin (w & w' & Hev & Hg)]]; [now left|].
    right. split; [assumption|]. exists w, w'.
    split; [apply in_or_app; now left | assumption].
  - exists []. rewrite app_nil_r. split; [reflexivity|].
    intros u. left. split; [intros [] | reflexivity].
Qed.
End BatchStage.

(** ** The shape of a run *)

Lemma no_submission_queried (l : list Event) :
  Forall (fun e => isSubmission e = false) l ->
  queriedUrls l = [] /\ notFoundUrls l = [] /\ requestedUrls l = [].
Proof.
  induction 1 as [|e l He _ (IH1 & IH2 & IH3)]; [now repeat split|].
  unfold queriedUrls, notFoundUrls, requestedUrls in *. cbn [flat_map].
  rewrite IH1, IH2, IH3. destruct e; try discriminate; now repeat split.
Qed.

Lemma submission_not_checked (l : list Event) :
  Forall (fun e => isSubmission e = true) l ->
  checkedUrls l = [] /\ filter isCacheWrite l = [] /\
  Forall (fun e => isStatusCheck e = false) l.
Proof.
  induction 1 as [|e l He _ (IH1 & IH2 & IH3)]; [now repeat split|].
  unfold checkedUrls in *. cbn [flat_map filter]. rewrite IH1.
  destruct e; try discriminate; cbn [isCacheWrite]; rewrite ?IH2;
    repeat split; now constructor.
Qed.

Lemma batch_event_kind (l : list Event) :
  Forall (fun e => isBatchEvent e = true) l ->
  Forall (fun e => isSubmission e = false) l /\ filter isCacheWrite l = [].
Proof.
  induction 1 as [|e l He _ (IH1 & IH2)]; [now split|].
  cbn [filter]. destruct e; try discriminate; cbn [isCacheWrite];
    split; try assumption; now constructor.
Qed.

Lemma requestedUrls_In (l : list Event) (u : Url) :
  In u (requestedUrls l) <-> In (CallRequestIndexing u) l.
Proof.
  unfold requestedUrls. rewrite in_flat_map. split.
  - intros (e & He & Hu). destruct e; try contradiction.
    destruct Hu as [<-|[]]. exact He.
  - intros H. exists (CallRequestIndexing u). split; [exact H | now left].
Qed.

Section RunShape.
Context {World : Type} {C : Collaborators World}.

Lemma enumerateUrls_events (o : option (list Url)) (w : World) :
  Forall (fun e => isSubmission e = false)
         (snd (enumerateUrls o w)) /\
  filter isCacheWrite (snd (enumerateUrls o w)) = [] /\
  checkedUrls (snd (enumerateUrls o w)) = [].
Proof.
  unfold enumerateUrls.
  destruct (List.length _ =? 0)%nat; [|now repeat split].
  destruct (getSitemapUrls w) as [[sitemaps urls] w1].
  destruct (List.length sitemaps =? 0)%nat;
    repeat split; now repeat constructor.
Qed.

Lemma enumerateUrls_world_inv (Q : World -> Prop) (o : option (list Url))
      (w : World) :
  (forall w, Q w -> Q (snd (getSitemapUrls w))) ->
  Q w -> Q (snd (fst (enumerateUrls o w))).
Proof.
  intros Hs Hw. unfold enumerateUrls.
  destruct (List.length _ =? 0)%nat; [|exact Hw].
  specialize (Hs w Hw).
  destruct (getSitemapUrls w) as [[sitemaps urls] w1].
  destruct (List.length sitemaps =? 0)%nat; exact Hs.
Qed.

Lemma index_exited (sched : Scheduler) (o : option (list Url))
      (r : option bool) (file : CacheFile) (w w1 : World) (code : Z)
      (ev : list Event) :
  enumerateUrls o w = (inl code, w1, ev) ->
  index sched o r file w =
  {| outcome := Exited code; trace := ev; cacheFile := file;
     finalWorld := w1; savedPages := []; queue := [] |}.
Proof. intros H. unfold index. now rewrite H. Qed.

Lemma index_threw (sched : Scheduler) (o : option (list Url))
      (r : option bool) (file : CacheFile) (w w1 : World)
      (urls : list Url) (ev : list Event) :
  enumerateUrls o w = (inr urls, w1, ev) ->
  loadCache file = None ->
  index sched o r file w =
  {| outcome := Threw; trace := ev ++ [ReadCacheFile]; cacheFile := file;
     finalWorld := w1; savedPages := []; queue := [] |}.
Proof.
  intros H Hl. unfold index. rewrite H, Hl.
  destruct file; [discriminate | reflexivity | discriminate].
Qed.

Lemma index_finished (sched : Scheduler) (o : option (list Url))
      (r : option bool) (file : CacheFile) (w w1 : World)
      (urls : list Url) (ev : list Event) (loaded : Pages) :
  enumerateUrls o w = (inr urls, w1, ev) ->
  loadCache file = Some loaded ->
  let reads := match file with Absent => [] | _ => [ReadCacheFile] end in
  let s1 := batch sched worker urls 50 onBatchComplete
                  {| world := w1; pages := loaded;
                     pagesPerIndexingStatus := pagesPerIndexingStatus_init;
                     events := ev ++ reads |} in
  let q := selectQueue (pages s1) in
  index sched o r file w =
  {| outcome := Finished;
     trace := events s1 ++ [MakeCacheDir; WriteCacheFile (pages s1)]
                        ++ snd (submitAll r q (world s1));
     cacheFile := Stored (pages s1);
     finalWorld := fst (submitAll r q (world s1));
     savedPages := pages s1;
     queue := q |}.
Proof.
  intros H Hl. unfold index. rewrite H, Hl. cbv zeta.
  destruct (submitAll _ _ _). reflexivity.
Qed.

(** Everything a run does before it writes the cache: no write, no
    submission. *)
Lemma index_before_write (sched : Scheduler) (urls : list Url)
      (o : option (list Url)) (file : CacheFile) (w w1 : World)
      (ev : list Event) (loaded : Pages) :
  enumerateUrls o w = (inr urls, w1, ev) ->
  let reads := match file with Absent => [] | _ => [ReadCacheFile] end in
  let s1 := batch sched worker urls 50 onBatchComplete
                  {| world := w1; pages := loaded;
                     pagesPerIndexingStatus := pagesPerIndexingStatus_init;
                     events := ev ++ reads |} in
  Forall (fun e => isSubmission e = false) (events s1) /\
  filter isCacheWrite (events s1) = [].
Proof.
  intros H reads s1.
  destruct (batch_events sched urls 50
              {| world := w1; pages := loaded;
                 pagesPerIndexingStatus := pagesPerIndexingStatus_init;
                 events := ev ++ reads |}) as (evs & He & Hf).
  fold s1 in He. cbn [events] in He. rewrite He.
  apply batch_event_kind in Hf. destruct Hf as [Hf1 Hf2].
  destruct (enumerateUrls_events o w) as (E1 & E2 & _).
  rewrite H in E1, E2. cbn [snd] in E1, E2.
  assert (R1 : Forall (fun e => isSubmission e = false) reads)
    by (subst reads; destruct file; now repeat constructor).
  assert (R2 : filter isCacheWrite reads = [])
    by (subst reads; destruct file; reflexivity).
  split.
  - repeat (apply Forall_app; split); assumption.
  - now rewrite !filter_app, E2, R2, Hf2.
Qed.
End RunShape.

(** ** Requests, answers and the service's record of submissions *)

Section RequestFacts.
Context {World : Type} {C : Collaborators World}.

(** Indexing is requested for the URLs answered with 404, and only those. *)
Lemma submitAll_requested (rpmRetry : option bool) (q : list Url)
      (w : World) :
  requestedUrls (snd (submitAll rpmRetry q w)) =
  notFoundUrls (snd (submitAll rpmRetry q w)).
Proof.
  revert w. induction q as [|url rest IH]; intros w.
  - reflexivity.
  - rewrite submitAll_cons. cbv zeta. cbn [snd].
    unfold requestedUrls, notFoundUrls in *. cbn [flat_map app].
    rewrite !flat_map_app, IH.
    destruct (_ =? 404); reflexivity.
Qed.

(** A run's trace ends with the events of its submission loop, and has no
    submission before them; the world the loop starts in is the initial
    one, up to sitemap queries, status checks and clock readings. *)
Lemma index_submissions (sched : Scheduler) (o : option (list Url))
      (r : option bool) (file : CacheFile) (w : World) :
  let run := index sched o r file w in
  exists before w',
    trace run = before ++ snd (submitAll r (queue run) w') /\
    finalWorld run = fst (submitAll r (queue run) w') /\
    Forall (fun e => isSubmission e = false) before /\
    forall Q : World -> Prop,
      (forall w, Q w -> Q (snd (getSitemapUrls w))) ->
      (forall w url, Q w -> Q (snd (getPageIndexingStatus w url))) ->
      (forall w, Q w -> Q (snd (dateNow w))) ->
      Q w -> Q w'.
Proof.
  cbv zeta.
  destruct (enumerateUrls_events o w) as (E & _ & _).
  destruct (enumerateUrls o w) as [[[code|urls] w1] ev] eqn:He;
    cbn [snd] in E.
  - rewrite (index_exited sched o r file w w1 code ev He).
    cbn [trace finalWorld queue]. exists ev, w1. cbn [submitAll fst snd].
    rewrite app_nil_r. repeat split; [assumption|].
    intros Q Hs _ _ Hw.
    pose proof (enumerateUrls_world_inv Q o w Hs Hw) as H.
    now rewrite He in H.
  - destruct (loadCache file) as [loaded|] eqn:Hl.
    + rewrite (index_finished sched o r file w w1 urls ev loaded He Hl).
      cbv zeta. cbn [trace finalWorld queue].
      set (s0 := {| world := w1; pages := loaded;
                    pagesPerIndexingStatus := pagesPerIndexingStatus_init;
                    events := _ |}).
      set (s1 := batch sched worker urls 50 onBatchComplete s0).
      destruct (index_before_write sched urls o file w w1 ev loaded He)
        as [B _].
      fold s0 s1 in B.
      exists (events s1 ++ [MakeCacheDir; WriteCacheFile (pages s1)]),
             (world s1).
      rewrite <- app_assoc. repeat split.
      * apply Forall_app. split; [assumption | now repeat constructor].
      * intros Q Hs Hc Hn Hw.
        apply (batch_world_inv Q Hc Hn sched urls 50 s0). cbn [world s0].
        pose proof (enumerateUrls_world_inv Q o w Hs Hw) as H.
        now rewrite He in H.
    + rewrite (index_threw sched o r file w w1 urls ev He Hl).
      cbn [trace finalWorld queue].
      exists (ev ++ [ReadCacheFile]), w1. cbn [submitAll fst snd].
      rewrite app_nil_r. repeat split.
      * apply Forall_app. split; [assumption | now repeat constructor].
      * intros Q Hs _ _ Hw.
        pose proof (enumerateUrls_world_inv Q o w Hs Hw) as H.
        now rewrite He in H.
Qed.

Section Service.
(** [submitted w u]: the service has a publish notification for [u]. *)
Variable submitted : World -> Url -> Prop.
Hypothesis request_submits : forall w u, submitted (requestIndexing w u) u.
Hypothesis request_keeps :
  forall w u v, submitted w v -> submitted (requestIndexing w u) v.
Hypothesis metadata_keeps :
  forall w u r v, submitted w v -> submitted (snd (getPublishMetadata w u r)) v.
Hypothesis metadata_found :
  forall w u r, submitted w u -> fst (getPublishMetadata w u r) < 400.

Lemma submitAll_keeps (rpmRetry : option bool) (q : list Url) (w : World)
      (v : Url) :
  submitted w v -> submitted (fst (submitAll rpmRetry q w)) v.
Proof.
  apply (submitAll_world_inv (fun w => submitted w v)); auto.
Qed.

Lemma submitAll_requested_submitted (rpmRetry : option bool)
      (q : list Url) (w : World) (u : Url) :
  In u (requestedUrls (snd (submitAll rpmRetry q w))) ->
  submitted (fst (submitAll rpmRetry q w)) u.
Proof.
  revert w. induction q as [|url rest IH]; intros w.
  - intros [].
  - rewrite submitAll_cons. cbv zeta. cbn [fst snd].
    unfold requestedUrls. cbn [flat_map app]. rewrite flat_map_app.
    intros H. apply in_app_or in H. destruct H as [H|H].
    + destruct (_ =? 404); [|contradiction].
      destruct H as [<-|[]]. apply submitAll_keeps, request_submits.
    + now apply IH.
Qed.

Lemma submitAll_submitted_no_request (rpmRetry : option bool)
      (q : list Url) (w : World) (u : Url) :
  submitted w u ->
  ~ In u (requestedUrls (snd (submitAll rpmRetry q w))).
Proof.
  revert w. induction q as [|url rest IH]; intros w Hw.
  - intros [].
  - rewrite submitAll_cons. cbv zeta. cbn [snd].
    unfold requestedUrls. cbn [flat_map app]. rewrite flat_map_app.
    intros H. apply in_app_or in H. destruct H as [H|H].
    + destruct (_ =? 404) eqn:E; [|contradiction].
      destruct H as [->|[]]. apply Z.eqb_eq in E.
      pose proof (metadata_found w u
                    (if truthy rpmRetry then QUOTA.rpm.retries else 0%nat)
                    Hw). lia.
    + revert H. apply IH. destruct (_ =? 404); auto.
Qed.
End Service.
End RequestFacts.

(** ** The retry loop of getPublishMetadata *)

Section RetryFacts.
Context {World : Type}.
Variable query : World -> Url -> Z * World.
Variable sleep : Z -> World -> World.

Lemma getPublishMetadata_retrying_steps (w : World) (url : Url) (n : nat) :
  let result := getPublishMetadata_retrying query sleep w url n in
  let steps := snd result in
  let waits := List.length (filter isWait steps) in
  Forall (fun e => e = Wait QUOTA.rpm.waitingTime \/ isQuery e = true) steps /\
  (waits <= n)%nat /\
  List.length (filter isQuery steps) = S waits /\
  (rateLimited (fst (fst result)) = false \/ waits = n).
Proof.
  cbv zeta. revert w. induction n as [|n IH]; intros w; simpl.
  - destruct (query w url) as [status w1].
    destruct (rateLimited status) eqn:E; simpl;
      (split; [repeat constructor; now right
              | split; [lia | split; [reflexivity | auto]]]).
  - destruct (query w url) as [status w1].
    destruct (rateLimited status) eqn:E; simpl.
    + specialize (IH (sleep QUOTA.rpm.waitingTime w1)).
      destruct (getPublishMetadata_retrying _ _ _ _ _) as [[final w3] steps].
      simpl in *. destruct IH as (I1 & I2 & I3 & I4).
      repeat split.
      * constructor; [now right|]. constructor; [now left | assumption].
      * lia.
      * now rewrite I3.
      * destruct I4 as [I4|I4]; [now left | right; now rewrite I4].
    + split; [repeat constructor; now right
             | split; [lia | split; [reflexivity | auto]]].
Qed.

Lemma getPublishMetadata_retrying_0 (w : World) (url : Url) :
  getPublishMetadata_retrying query sleep w url 0 =
  (query w url, [Query (fst (query w url))]).
Proof.
  simpl. destruct (query w url) as [status w1].
  destruct (rateLimited status); reflexivity.
Qed.
End RetryFacts.

(** ** Claims on the pipeline *)

Section PipelineClaims.
Context {World : Type} {C : Collaborators World}.

(** C7. Loading an absent cache file gives the empty mapping.  A run that
    finishes writes the cache file exactly once: everything before that
    write is free of submissions, everything after it is free of status
    checks, and what is written (and left on disk) is the in-memory
    mapping: it keeps every key that was loaded, an entry whose URL was
    not checked in this run is the loaded one, and an entry whose URL was
    checked is classified from an answer of this run.  A run that does
    not finish writes nothing and leaves the file as it was. *)
Theorem cache_lifecycle (sched : Scheduler) (o : option (list Url))
        (r : option bool) (file : CacheFile) (w : World) :
  let run := index sched o r file w in
  loadCache Absent = Some [] /\
  match outcome run with
  | Finished =>
      exists loaded before after,
        loadCache file = Some loaded /\
        trace run = before ++ [WriteCacheFile (savedPages run)] ++ after /\
        filter isCacheWrite (trace run) = [WriteCacheFile (savedPages run)] /\
        Forall (fun e => isSubmission e = false) before /\
        Forall (fun e => isStatusCheck e = false) after /\
        cacheFile run = Stored (savedPages run) /\
        incl (pages_keys loaded) (pages_keys (savedPages run)) /\
        forall u,
          (~ In u (checkedUrls before) /\
           pages_get (savedPages run) u = pages_get loaded u)
          \/
          (In u (checkedUrls before) /\
           exists st t,
             In (CallGetPageIndexingStatus u st) before /\
             pages_get (savedPages run) u =
             Some {| status := classify st; indexingStatus := st;
                     lastCheckedAt := Ms t |})
  | _ =>
      filter isCacheWrite (trace run) = [] /\ cacheFile run = file
  end.
Proof.
  cbv zeta. split; [reflexivity|].
  destruct (enumerateUrls o w) as [[[code|urls] w1] ev] eqn:He.
  - rewrite (index_exited sched o r file w w1 code ev He).
    cbn [outcome trace cacheFile].
    destruct (enumerateUrls_events o w) as (_ & E & _).
    rewrite He in E. now split.
  - destruct (loadCache file) as [loaded|] eqn:Hl.
    + rewrite (index_finished sched o r file w w1 urls ev loaded He Hl).
      cbv zeta. cbn [outcome trace cacheFile savedPages].
      set (s0 := {| world := w1; pages := loaded;
                    pagesPerIndexingStatus := pagesPerIndexingStatus_init;
                    events := _ |}).
      set (s1 := batch sched worker urls 50 onBatchComplete s0).
      destruct (index_before_write sched urls o file w w1 ev loaded He)
        as [B1 B2].
      fold s0 s1 in B1, B2.
      pose proof (submitAll_submissions r (selectQueue (pages s1)) (world s1))
        as Hs.
      apply submission_not_checked in Hs. destruct Hs as (_ & S2 & S3).
      exists loaded, (events s1 ++ [MakeCacheDir]),
             (snd (submitAll r (selectQueue (pages s1)) (world s1))).
      split; [reflexivity|]. split; [now rewrite <- app_assoc|].
      split; [rewrite !filter_app, B2, S2; reflexivity|].
      split; [apply Forall_app; split;
              [assumption | now repeat constructor]|].
      split; [assumption|]. split; [reflexivity|].
      split; [intros u Hu; now apply batch_keys|].
      destruct (batch_pages sched urls 50 s0) as (evs & Hev & Hpages).
      fold s1 in Hev, Hpages. cbn [events pages s0] in Hev, Hpages.
      assert (Hc : checkedUrls (events s1 ++ [MakeCacheDir]) = checkedUrls evs).
      { rewrite Hev. unfold checkedUrls. rewrite !flat_map_app.
        destruct (enumerateUrls_events o w) as (_ & _ & E).
        rewrite He in E. cbn [snd] in E. unfold checkedUrls in E. rewrite E.
        cbn [flat_map app]. rewrite app_nil_r.
        destruct file; reflexivity. }
      intros u. rewrite Hc.
      destruct (Hpages u) as [H | [Hin (wa & wb & Hev' & Hg)]]; [now left|].
      right. split; [assumption|].
      exists (fst (getPageIndexingStatus wa u)), (fst (dateNow wb)).
      split; [|assumption].
      rewrite Hev. apply in_or_app. left. apply in_or_app. now right.
    + rewrite (index_threw sched o r file w w1 urls ev He Hl).
      cbn [outcome trace cacheFile].
      destruct (enumerateUrls_events o w) as (_ & E & _).
      rewrite He in E. cbn [snd] in E. rewrite filter_app, E. now split.
Qed.

(** C6, as the code has it.  With no custom URL list, a run that finds no
    sitemap exits with code 1 right after the sitemap query: no cache
    read, no status check, no cache write, no submission, and the cache
    file is left as it was.  A run that finds sitemaps listing no URL is
    not stopped by that: it goes on to load the cache.  If the cache
    loads, the run finishes: it checks no status, writes the loaded
    mapping back, and runs the submission loop over the Pending entries of
    that mapping, fetching the publish metadata of each of them, with the
    retry budget, and requesting indexing for those answered 404.  If the
    cache file is malformed, the run throws on reading it, with nothing
    written and nothing submitted. *)
Theorem no_sitemap_is_fatal (sched : Scheduler) (o : option (list Url))
        (r : option bool) (file : CacheFile) (w : World)
        (Hcustom : match o with Some l => l | None => [] end = []) :
  let run := index sched o r file w in
  match fst (getSitemapUrls w) with
  | ([], _) =>
      outcome run = Exited 1 /\
      trace run = [CallGetSitemapUrls; ProcessExit 1] /\
      cacheFile run = file
  | (_ :: _, []) =>
      match loadCache file with
      | Some loaded =>
          outcome run = Finished /\
          checkedUrls (trace run) = [] /\
          filter isCacheWrite (trace run) = [WriteCacheFile loaded] /\
          cacheFile run = Stored loaded /\
          queue run = selectQueue loaded /\
          trace run =
            [CallGetSitemapUrls]
              ++ match file with Absent => [] | _ => [ReadCacheFile] end
              ++ [MakeCacheDir; WriteCacheFile loaded]
              ++ snd (submitAll r (selectQueue loaded)
                                (snd (getSitemapUrls w))) /\
          queriedUrls (trace run) =
            map (fun url => (url, if truthy r then 3%nat else 0%nat))
                (selectQueue loaded) /\
          requestedUrls (trace run) = notFoundUrls (trace run)
      | None =>
          outcome run = Threw /\
          trace run = [CallGetSitemapUrls; ReadCacheFile] /\
          cacheFile run = file
      end
  | (_ :: _, _ :: _) => outcome run <> Exited 1
  end.
Proof.
  cbv zeta.
  assert (He : enumerateUrls o w =
               let '((sitemaps, urls), w1) := getSitemapUrls w in
               if (List.length sitemaps =? 0)%nat
               then (inl 1, w1, [CallGetSitemapUrls; ProcessExit 1])
               else (inr urls, w1, [CallGetSitemapUrls])).
  { unfold enumerateUrls. now rewrite Hcustom. }
  destruct (getSitemapUrls w) as [[sitemaps urls] w1]. cbn [fst snd].
  destruct sitemaps as [|sm sitemaps]; cbn [List.length Nat.eqb] in He.
  - rewrite (index_exited sched o r file w w1 1 _ He). now repeat split.
  - destruct urls as [|u urls].
    + destruct (loadCache file) as [loaded|] eqn:Hl.
      * rewrite (index_finished sched o r file w w1 [] _ loaded He Hl).
        cbv zeta. cbn [outcome trace cacheFile queue batch createChunks
                       createChunks_fuel List.length runChunks pages
                       events world].
        pose proof (submitAll_submissions r (selectQueue loaded) w1) as Hs.
        apply submission_not_checked in Hs. destruct Hs as (S1 & S2 & _).
        pose proof (submitAll_queried r (selectQueue loaded) w1) as Hq.
        pose proof (submitAll_requested r (selectQueue loaded) w1) as Hr.
        split; [reflexivity|]. split; [|split; [|split; [|split; [|split;
          [|split]]]]].
        -- unfold checkedUrls in *. rewrite !flat_map_app, S1.
           destruct file; reflexivity.
        -- rewrite !filter_app, S2. destruct file; reflexivity.
        -- reflexivity.
        -- reflexivity.
        -- now rewrite <- app_assoc.
        -- unfold queriedUrls in *. rewrite !flat_map_app, Hq.
           destruct file; reflexivity.
        -- unfold requestedUrls, notFoundUrls in *.
           rewrite !flat_map_app, Hr. destruct file; reflexivity.
      * rewrite (index_threw sched o r file w w1 [] _ He Hl). now repeat split.
    + destruct (loadCache file) as [loaded|] eqn:Hl.
      * rewrite (index_finished sched o r file w w1 _ _ loaded He Hl).
        discriminate.
      * rewrite (index_threw sched o r file w w1 _ _ He Hl). discriminate.
Qed.

(** C10. The queue is selected from the whole cache object: a URL is
    queued exactly when its entry is Pending at the end of the batch
    stage.  In particular a Pending entry of the loaded cache is queued,
    and its publish metadata fetched, without any status check, when its
    URL is not among this run's URLs, and when it is fresh. *)
Theorem queue_from_cache (sched : Scheduler) (o : option (list Url))
        (r : option bool) (file : CacheFile) (w w1 : World)
        (urls : list Url) (ev : list Event) (loaded : Pages)
        (u : Url) (p : Page)
        (Henum : enumerateUrls o w = (inr urls, w1, ev))
        (Hload : loadCache file = Some loaded)
        (Hcached : pages_get loaded u = Some p)
        (Hpending : status p = Pending)
        (Hkept : ~ In u urls \/
                 forall w', shouldRecheck (fst (dateNow w')) p = false) :
  let run := index sched o r file w in
  (forall v, In v (queue run) <->
             exists q, pages_get (savedPages run) v = Some q /\
                       status q = Pending) /\
  pages_get (savedPages run) u = Some p /\
  In u (queue run) /\
  ~ In u (checkedUrls (trace run)) /\
  In u (map fst (queriedUrls (trace run))).
Proof.
  cbv zeta.
  rewrite (index_finished sched o r file w w1 urls ev loaded Henum Hload).
  cbv zeta. cbn [trace savedPages queue].
  set (s0 := {| world := w1; pages := loaded;
                pagesPerIndexingStatus := pagesPerIndexingStatus_init;
                events := _ |}).
  set (s1 := batch sched worker urls 50 onBatchComplete s0).
  destruct (batch_untouched sched urls 50 s0 u p Hcached Hkept)
    as (Hget & evs & Hev & Hnot).
  fold s1 in Hget, Hev. cbn [events s0] in Hev.
  assert (Hq : In u (selectQueue (pages s1)))
    by (apply selectQueue_In; now exists p).
  split; [intros v; apply selectQueue_In|].
  split; [assumption|]. split; [assumption|]. split.
  - rewrite Hev. unfold checkedUrls in *. rewrite !flat_map_app.
    destruct (enumerateUrls_events o w) as (_ & _ & E).
    rewrite Henum in E. cbn [snd] in E. unfold checkedUrls in E. rewrite E.
    pose proof (submitAll_submissions r (selectQueue (pages s1)) (world s1))
      as Hs.
    apply submission_not_checked in Hs. destruct Hs as (S1 & _ & _).
    unfold checkedUrls in S1. rewrite S1.
    cbn [flat_map app]. rewrite app_nil_r.
    intros Hin. apply in_app_or in Hin. destruct Hin as [Hin|Hin].
    + destruct file; cbn in Hin; contradiction.
    + now apply Hnot.
  - unfold queriedUrls. rewrite !flat_map_app, map_app, map_app.
    apply in_or_app. right. apply in_or_app. right.
    fold (queriedUrls (snd (submitAll r (selectQueue (pages s1)) (world s1)))).
    rewrite submitAll_queried, map_map. cbn [fst]. now rewrite map_id.
Qed.

(** C4. In every run indexing is requested for exactly the URLs whose
    publish-metadata query answered 404, in that order; a URL whose
    queries all answered below 400 gets no request.  If the service
    answers below 400 for a URL it has a notification for, records a
    notification on every request and never forgets one, then a URL
    requested in one run is not requested again in the run that follows
    it on the world and cache file the first one left. *)
Theorem submission_idempotent
        (submitted : World -> Url -> Prop)
        (request_submits : forall w u, submitted (requestIndexing w u) u)
        (request_keeps :
           forall w u v, submitted w v -> submitted (requestIndexing w u) v)
        (metadata_keeps :
           forall w u r v, submitted w v ->
                           submitted (snd (getPublishMetadata w u r)) v)
        (status_keeps :
           forall w u v, submitted w v ->
                         submitted (snd (getPageIndexingStatus w u)) v)
        (clock_keeps : forall w v, submitted w v -> submitted (snd (dateNow w)) v)
        (sitemaps_keep :
           forall w v, submitted w v -> submitted (snd (getSitemapUrls w)) v)
        (metadata_found :
           forall w u r, submitted w u -> fst (getPublishMetadata w u r) < 400)
        (sched1 sched2 : Scheduler) (o1 o2 : option (list Url))
        (r1 r2 : option bool) (file : CacheFile) (w : World) :
  let run1 := index sched1 o1 r1 file w in
  let run2 := index sched2 o2 r2 (cacheFile run1) (finalWorld run1) in
  requestedUrls (trace run1) = notFoundUrls (trace run1) /\
  requestedUrls (trace run2) = notFoundUrls (trace run2) /\
  (forall u,
      (forall r st, In (CallGetPublishMetadata u r st) (trace run1) -> st < 400) ->
      ~ In u (requestedUrls (trace run1))) /\
  (forall u, In u (requestedUrls (trace run1)) ->
             ~ In u (requestedUrls (trace run2))).
Proof.
  intros run1 run2.
  destruct (index_submissions sched1 o1 r1 file w)
    as (before1 & w1' & T1 & F1 & B1 & _).
  destruct (index_submissions sched2 o2 r2 (cacheFile run1) (finalWorld run1))
    as (before2 & w2' & T2 & _ & B2 & Inv2).
  fold run1 in T1, F1. fold run2 in T2.
  apply no_submission_queried in B1, B2.
  destruct B1 as (_ & B1n & B1r), B2 as (_ & B2n & B2r).
  assert (R1 : requestedUrls (trace run1) =
               requestedUrls (snd (submitAll r1 (queue run1) w1'))).
  { rewrite T1. unfold requestedUrls in *. now rewrite flat_map_app, B1r. }
  assert (R2 : requestedUrls (trace run2) =
               requestedUrls (snd (submitAll r2 (queue run2) w2'))).
  { rewrite T2. unfold requestedUrls in *. now rewrite flat_map_app, B2r. }
  split; [|split; [|split]].
  - rewrite R1, T1. unfold notFoundUrls in *. rewrite flat_map_app, B1n.
    apply submitAll_requested.
  - rewrite R2, T2. unfold notFoundUrls in *. rewrite flat_map_app, B2n.
    apply submitAll_requested.
  - intros u Hu Hin. rewrite R1 in Hin. apply requestedUrls_In in Hin.
    apply submitAll_request_iff in Hin. destruct Hin as [r Hr].
    assert (H404 : In (CallGetPublishMetadata u r 404) (trace run1))
      by (rewrite T1; apply in_or_app; now right).
    apply Hu in H404. lia.
  - intros u Hin. rewrite R1 in Hin. rewrite R2.
    apply (submitAll_submitted_no_request
             submitted request_keeps metadata_keeps metadata_found).
    apply (Inv2 (fun w => submitted w u)); auto.
    rewrite F1.
    now apply (submitAll_requested_submitted
                 submitted request_submits request_keeps metadata_keeps).
Qed.

(** C5. Every URL of the queue has its publish metadata fetched once,
    with a retry budget of 3 when [rpmRetry] is set and of 0 otherwise,
    and [QUOTA.rpm.waitingTime] is 60 seconds.  Given that budget, the
    query loop waits only for that time, at most budget times, sends one
    request more than it waits, and gives up on a rate-limited answer
    only with the budget used up; with a budget of 0 it sends a single
    request and returns its answer. *)
Theorem retry_budget (sched : Scheduler) (o : option (list Url))
        (r : option bool) (file : CacheFile) (w : World) :
  let run := index sched o r file w in
  let budget := if truthy r then 3%nat else 0%nat in
  queriedUrls (trace run) = map (fun url => (url, budget)) (queue run) /\
  QUOTA.rpm.waitingTime = 60 * 1000 /\
  forall (W : Type) (query : W -> Url -> Z * W) (sleep : Z -> W -> W)
         (w0 : W) (url : Url),
    let result := getPublishMetadata_retrying query sleep w0 url budget in
    let waits := List.length (filter isWait (snd result)) in
    Forall (fun e => e = Wait 60000 \/ isQuery e = true) (snd result) /\
    (waits <= budget)%nat /\
    List.length (filter isQuery (snd result)) = S waits /\
    (rateLimited (fst (fst result)) = false \/ waits = budget) /\
    (if truthy r then True
     else result = (query w0 url, [Query (fst (query w0 url))])).
Proof.
  intros run budget. split; [|split; [reflexivity|]].
  - destruct (index_submissions sched o r file w)
      as (before & w' & T & _ & B & _).
    fold run in T. rewrite T.
    apply no_submission_queried in B. destruct B as (B & _ & _).
    unfold queriedUrls in *. rewrite flat_map_app, B.
    apply submitAll_queried.
  - intros W query sleep w0 url result waits.
    destruct (getPublishMetadata_retrying_steps query sleep w0 url budget)
      as (S1 & S2 & S3 & S4).
    repeat split; try assumption.
    subst result budget. destruct (truthy r); [exact I|].
    apply getPublishMetadata_retrying_0.
Qed.
End PipelineClaims.

(** ** The end-to-end scenario *)

Lemma Permutation_length_3_inv {A : Type} (a b c : A) (l : list A) :
  Permutation l [a; b; c] ->
  l = [a; b; c] \/ l = [a; c; b] \/ l = [b; a; c] \/
  l = [b; c; a] \/ l = [c; a; b] \/ l = [c; b; a].
Proof.
  intros H. destruct (Permutation_vs_cons_inv H) as (l1 & l2 & ->).
  apply Permutation_sym, Permutation_cons_app_inv,
        Permutation_length_2_inv in H.
  destruct l1 as [|x [|y [|z l1]]]; cbn [app] in *;
    destruct H as [H|H]; try discriminate H;
    first [subst; tauto | inversion H; subst; tauto].
Qed.

Section Scenario.
Context {World : Type} {C : Collaborators World}.

Lemma recheck_eq (url : Url) (s : State) :
  recheck url s =
  let st := fst (getPageIndexingStatus (world s) url) in
  let w1 := snd (getPageIndexingStatus (world s) url) in
  {| world := snd (dateNow w1);
     pages := pages_set (pages s) url
                        {| status := classify st; indexingStatus := st;
                           lastCheckedAt := Ms (fst (dateNow w1)) |};
     pagesPerIndexingStatus :=
       perStatus_push (pagesPerIndexingStatus s) st url;
     events := events s ++ [CallGetPageIndexingStatus url st] |}.
Proof.
  unfold recheck. destruct (getPageIndexingStatus _ _) as [st w1].
  cbn [fst snd]. destruct (dateNow w1). reflexivity.
Qed.

(** C9. Three distinct URLs found through the sitemaps, no cache file,
    status checks answering Discovered-currently-not-indexed,
    Submitted-and-indexed and RateLimited, a clock that reads [T]
    throughout: whatever the order in which the checks settle, the
    run finishes with the three URLs cached as Pending, Completed and
    Failed, one of each; only the first is queued and has its publish
    metadata fetched; the cache file holds exactly these three entries,
    each with [lastCheckedAt] equal to [T]. *)
Theorem end_to_end_scenario
        (sched : Scheduler) (r : option bool) (w w1 : World)
        (sitemap : string) (sitemaps : list string) (u1 u2 u3 : Url) (T : Z)
        (Hsitemaps : getSitemapUrls w = ((sitemap :: sitemaps, [u1; u2; u3]), w1))
        (Hdistinct : NoDup [u1; u2; u3])
        (H1 : forall w, fst (getPageIndexingStatus w u1)
                        = DiscoveredCurrentlyNotIndexed)
        (H2 : forall w, fst (getPageIndexingStatus w u2) = SubmittedAndIndexed)
        (H3 : forall w, fst (getPageIndexingStatus w u3) = RateLimited)
        (Hclock : forall w, fst (dateNow w) = T) :
  let run := index sched None r Absent w in
  outcome run = Finished /\
  pages_get (savedPages run) u1 =
    Some {| status := Pending;
            indexingStatus := DiscoveredCurrentlyNotIndexed;
            lastCheckedAt := Ms T |} /\
  pages_get (savedPages run) u2 =
    Some {| status := Completed;
            indexingStatus := SubmittedAndIndexed;
            lastCheckedAt := Ms T |} /\
  pages_get (savedPages run) u3 =
    Some {| status := Failed;
            indexingStatus := RateLimited;
            lastCheckedAt := Ms T |} /\
  countStatus Pending (savedPages run) = 1%nat /\
  countStatus Completed (savedPages run) = 1%nat /\
  countStatus Failed (savedPages run) = 1%nat /\
  queue run = [u1] /\
  map fst (queriedUrls (trace run)) = [u1] /\
  cacheFile run = Stored (savedPages run) /\
  List.length (savedPages run) = 3%nat /\
  Forall (fun kp => lastCheckedAt (snd kp) = Ms T) (savedPages run).
Proof.
  assert (He : enumerateUrls None w = (inr [u1; u2; u3], w1, [CallGetSitemapUrls])).
  { unfold enumerateUrls. cbn [List.length Nat.eqb]. now rewrite Hsitemaps. }
  assert (N12 : String.eqb u1 u2 = false /\ String.eqb u2 u1 = false).
  { split; apply String.eqb_neq; intros ->;
      inversion Hdistinct as [|? ? Hn _]; apply Hn; now left. }
  assert (N13 : String.eqb u1 u3 = false /\ String.eqb u3 u1 = false).
  { split; apply String.eqb_neq; intros ->;
      inversion Hdistinct as [|? ? Hn _]; apply Hn; right; now left. }
  assert (N23 : String.eqb u2 u3 = false /\ String.eqb u3 u2 = false).
  { split; apply String.eqb_neq; intros ->;
      inversion Hdistinct as [|? ? _ Hd]; inversion Hd as [|? ? Hn _];
      apply Hn; now left. }
  destruct N12 as [E12 E21], N13 as [E13 E31], N23 as [E23 E32].
  cbv zeta.
  rewrite (index_finished sched None r Absent w w1 _ _ [] He eq_refl).
  cbv zeta. cbn [outcome trace cacheFile savedPages queue].
  set (s0 := {| world := w1; pages := []; pagesPerIndexingStatus := _;
                events := _ |}).
  assert (Hbatch :
            exists ks,
              Permutation ks [recheck u1; recheck u2; recheck u3] /\
              batch sched worker [u1; u2; u3] 50 onBatchComplete s0 =
              onBatchComplete 0 1 (resumeAll ks s0)).
  { exists (settle sched 0 _ [recheck u1; recheck u2; recheck u3]).
    split; [apply settle_perm | reflexivity]. }
  destruct Hbatch as (ks & Hperm & ->).
  pose proof (submitAll_queried r) as Hq.
  apply Permutation_length_3_inv in Hperm.
  destruct Hperm as [->|[->|[->|[->|[->| ->]]]]];
    cbn [resumeAll fold_left]; rewrite !recheck_eq; cbv zeta;
    cbn [world pages events pagesPerIndexingStatus onBatchComplete s0];
    rewrite ?H1, ?H2, ?H3, ?Hclock;
    cbn [pages_set pages_get];
    rewrite ?E12, ?E21, ?E13, ?E31, ?E23, ?E32, ?String.eqb_refl;
    cbn [pages_set pages_get];
    rewrite ?E12, ?E21, ?E13, ?E31, ?E23, ?E32, ?String.eqb_refl;
    unfold selectQueue, queriedUrls;
    rewrite !flat_map_app; fold (queriedUrls);
    cbn [pages_keys map fst filter pages_get flat_map app];
    rewrite ?E12, ?E21, ?E13, ?E31, ?E23, ?E32, ?String.eqb_refl;
    cbn [pages_get];
    rewrite ?E12, ?E21, ?E13, ?E31, ?E23, ?E32, ?String.eqb_refl;
    repeat split; try reflexivity;
    try (rewrite Hq; reflexivity);
    repeat constructor.
Qed.
End Scenario.

(** ** The claims on scripted runs *)

Lemma mem_cons (u v : Url) (l : list Url) :
  mem u l = true -> mem u (v :: l) = true.
Proof. intros H. unfold mem in *. cbn [existsb]. rewrite H. apply orb_true_r. Qed.

Lemma mem_head (u : Url) (l : list Url) : mem u (u :: l) = true.
Proof. unfold mem. cbn [existsb]. now rewrite String.eqb_refl. Qed.

(** Against C6 as stated: with a sitemap that lists no URL and an earlier
    cache on disk, the enumeration yields zero URLs and the run finishes
    all the same: it reads the cache, writes it back, and requests indexing
    for the page that was pending in it. *)
Lemma zero_urls_not_fatal :
  @enumerateUrls _ empty_sitemap None [] = (inr [], [], [CallGetSitemapUrls]) /\
  outcome empty_sitemap_run = Finished /\
  trace empty_sitemap_run =
    [ CallGetSitemapUrls; ReadCacheFile; MakeCacheDir;
      WriteCacheFile old_cache;
      CallGetPublishMetadata page_old 3 404;
      CallRequestIndexing page_old ] /\
  cacheFile empty_sitemap_run = Stored old_cache.
Proof. vm_compute. repeat split. Qed.

Lemma no_sitemap_is_fatal_witness :
  (outcome no_sitemap_run = Exited 1 /\
   trace no_sitemap_run = [CallGetSitemapUrls; ProcessExit 1] /\
   cacheFile no_sitemap_run = Stored old_cache) /\
  (outcome empty_sitemap_run = Finished /\
   checkedUrls (trace empty_sitemap_run) = [] /\
   cacheFile empty_sitemap_run = Stored old_cache /\
   queriedUrls (trace empty_sitemap_run) = [(page_old, 3%nat)] /\
   requestedUrls (trace empty_sitemap_run) = [page_old]).
Proof.
  split.
  - exact (@no_sitemap_is_fatal _ no_sitemap fifo None (Some true)
                                (Stored old_cache) [] eq_refl).
  - pose proof (@no_sitemap_is_fatal _ empty_sitemap fifo None (Some true)
                                     (Stored old_cache) [] eq_refl) as H.
    cbv zeta in H. cbn [fst getSitemapUrls empty_sitemap scripted loadCache] in H.
    destruct H as (H1 & H2 & _ & H4 & _ & _ & H7 & H8).
    split; [exact H1|]. split; [exact H2|]. split; [exact H4|].
    split; [exact H7|]. exact (eq_trans H8 eq_refl).
Defined.

Lemma submission_idempotent_witness :
  requestedUrls (trace first_run) = [page_a] /\
  ~ In page_a (requestedUrls (trace second_run)).
Proof.
  pose proof
       (@submission_idempotent
          _ scenario (fun w u => mem u w = true)
          (fun w u => mem_head u w)
          (fun w u v H => mem_cons v u w H)
          (fun w u r v H => H)
          (fun w u v H => H)
          (fun w v H => H)
          (fun w v H => H)) as Hidem.
  assert (Hfound : forall (w : list Url) (u : Url) (r : nat),
             mem u w = true -> fst (@getPublishMetadata _ scenario w u r) < 400).
  { intros w u r H. cbn [getPublishMetadata scenario scripted fst]. rewrite H. lia. }
  specialize (Hidem Hfound fifo lifo None None (Some true) (Some true) Absent []).
  destruct Hidem as (_ & _ & _ & Hidem).
  split; [reflexivity|]. apply Hidem. now left.
Defined.

Lemma queue_from_cache_witness :
  pages_get old_cache page_old =
    Some {| status := Pending;
            indexingStatus := CrawledCurrentlyNotIndexed;
            lastCheckedAt := Ms (scenario_now - 86400000) |} /\
  ~ In page_old [page_a; page_b; page_c] /\
  In page_old (queue carried_over_run) /\
  ~ In page_old (checkedUrls (trace carried_over_run)) /\
  In page_old (map fst (queriedUrls (trace carried_over_run))).
Proof.
  assert (Hnot : ~ In page_old [page_a; page_b; page_c]).
  { intros [H|[H|[H|[]]]]; discriminate H. }
  split; [reflexivity|]. split; [exact Hnot|].
  apply (@queue_from_cache
           _ scenario fifo None None (Stored old_cache) [] []
           [page_a; page_b; page_c] [CallGetSitemapUrls] old_cache page_old
           {| status := Pending;
              indexingStatus := CrawledCurrentlyNotIndexed;
              lastCheckedAt := Ms (scenario_now - 86400000) |}
           eq_refl eq_refl eq_refl eq_refl (or_introl Hnot)).
Defined.

Lemma end_to_end_scenario_witness :
  NoDup [page_a; page_b; page_c] /\
  outcome first_run = Finished /\
  queue first_run = [page_a] /\
  countStatus Pending (savedPages first_run) = 1%nat /\
  countStatus Completed (savedPages first_run) = 1%nat /\
  countStatus Failed (savedPages first_run) = 1%nat /\
  List.length (savedPages first_run) = 3%nat /\
  Forall (fun kp => lastCheckedAt (snd kp) = Ms scenario_now)
         (savedPages first_run).
Proof.
  assert (Hd : NoDup [page_a; page_b; page_c]).
  { repeat constructor; cbn [In]; intros H;
      repeat (destruct H as [H|H]; [discriminate H|]); exact H. }
  split; [exact Hd|].
  pose proof
       (@end_to_end_scenario
          _ scenario fifo (Some true) [] []
          "https://example.com/sitemap.xml"%string []
          page_a page_b page_c scenario_now
          eq_refl Hd (fun _ => eq_refl) (fun _ => eq_refl) (fun _ => eq_refl)
          (fun _ => eq_refl)) as H.
  cbv zeta in H. fold first_run in H.
  destruct H as (O & _ & _ & _ & P1 & P2 & P3 & Q & _ & _ & L & F).
  repeat split; assumption.
Defined.

(** Section 8 of the spec, on the retry loop: rate limited twice, then
    answered, with a budget of 3 the loop waits twice and returns the
    answer; with no budget it returns the first rate-limited status without
    waiting. *)
Example retry_after_two_rate_limits :
  getPublishMetadata_retrying throttled_query (fun _ w => w) 2%nat page_a 3 =
    (200, 0%nat, [Query 429; Wait 60000; Query 429; Wait 60000; Query 200]) /\
  getPublishMetadata_retrying throttled_query (fun _ w => w) 2%nat page_a 0 =
    (429, 1%nat, [Query 429]).
Proof. split; reflexivity. Qed.

(** Section 8 of the spec, on batches: 120 items in batches of 50 make
    three chunks of 50, 50 and 20. *)
Example chunks_of_120 :
  map (@List.length Url) (createChunks (repeat page_a 120) 50) =
  [50; 50; 20]%nat.
Proof. reflexivity. Qed.

(** * Further properties of the pipeline *)

(** ** Progress and accounting for [batch] *)

Section BatchProgress.
Context {St : Type} (P : St -> Prop) (Done : Url -> St -> Prop).
Variable task : @Task St.
Variable items : list Url.
Variable complete : nat -> nat -> St -> St.

Hypothesis task_inv :
  forall url i b n s, In url items -> P s ->
    P (fst (task url i b n s)) /\
    forall k, snd (task url i b n s) = Some k -> forall s', P s' -> P (k s').
Hypothesis complete_inv : forall b n s, P s -> P (complete b n s).
Hypothesis done_start :
  forall u url i b n s, P s -> Done u s -> Done u (fst (task url i b n s)).
Hypothesis done_resume :
  forall u url i b n s k, In url items -> P s ->
    snd (task url i b n s) = Some k ->
    forall s', P s' -> Done u s' -> Done u (k s').
Hypothesis done_complete :
  forall u b n s, P s -> Done u s -> Done u (complete b n s).
Hypothesis start_or_resume :
  forall url i b n s, In url items -> P s ->
    match snd (task url i b n s) with
    | None => Done url (fst (task url i b n s))
    | Some k => forall s', P s' -> Done url (k s')
    end.

Lemma dispatch_progress (chunk : list Url) (i b n : nat) (s : St) :
  incl chunk items -> P s ->
  P (fst (dispatch task chunk i b n s)) /\
  (forall u, Done u s -> Done u (fst (dispatch task chunk i b n s))) /\
  Forall (fun k => forall s', P s' ->
                     P (k s') /\ forall u, Done u s' -> Done u (k s'))
         (snd (dispatch task chunk i b n s)) /\
  (forall u, In u chunk ->
     Done u (fst (dispatch task chunk i b n s)) \/
     Exists (fun k => forall s', P s' -> Done u (k s'))
            (snd (dispatch task chunk i b n s))).
Proof.
  revert i s. induction chunk as [|url rest IH]; intros i s Hincl Hs.
  - cbn [dispatch fst snd]. repeat split; auto. intros u [].
  - assert (Hurl : In url items) by (apply Hincl; now left).
    assert (Hrest : incl rest items)
      by (intros x Hx; apply Hincl; now right).
    destruct (task_inv url i b n s Hurl Hs) as [T1 T2].
    pose proof (start_or_resume url i b n s Hurl Hs) as Hsr.
    pose proof (fun u => done_start u url i b n s Hs) as Hds.
    pose proof (fun u k => done_resume u url i b n s k Hurl Hs) as Hdr.
    cbn [dispatch].
    destruct (task url i b n s) as [s1 k]. cbn [fst snd] in *.
    destruct (IH (S i) s1 Hrest T1) as (I1 & I2 & I3 & I4).
    destruct (dispatch task rest (S i) b n s1) as [s2 ks].
    cbn [fst snd] in *.
    split; [assumption|]. split; [auto|]. split.
    + destruct k as [k|]; [|assumption].
      constructor; [|assumption].
      intros s' Hs'. split; [now apply T2|].
      intros u Hu. now apply (Hdr u k).
    + intros u [<-|Hu].
      * destruct k as [k|].
        -- right. now constructor.
        -- left. now apply I2.
      * destruct (I4 u Hu) as [H|H]; [now left|].
        right. destruct k; [now constructor 2 | assumption].
Qed.

Lemma resumeAll_progress (ks : list (St -> St)) (s : St) :
  Forall (fun k => forall s', P s' ->
                     P (k s') /\ forall u, Done u s' -> Done u (k s')) ks ->
  P s ->
  P (resumeAll ks s) /\
  (forall u, Done u s -> Done u (resumeAll ks s)) /\
  (forall u, Exists (fun k => forall s', P s' -> Done u (k s')) ks ->
             Done u (resumeAll ks s)).
Proof.
  unfold resumeAll. revert s.
  induction ks as [|k ks IH]; intros s Hks Hs; cbn [fold_left].
  - repeat split; auto. intros u H. inversion H.
  - inversion Hks as [|? ? Hk Hks']; subst.
    destruct (Hk s Hs) as [K1 K2].
    destruct (IH (k s) Hks' K1) as (I1 & I2 & I3).
    repeat split; auto.
    intros u H. inversion H as [? ? Hu|? ? Hu]; subst; auto.
Qed.

Lemma runChunks_progress (sched : Scheduler) (chunks : list (list Url))
      (b n : nat) (s : St) :
  (forall c, In c chunks -> incl c items) -> P s ->
  P (runChunks sched task complete chunks b n s) /\
  (forall u, Done u s -> Done u (runChunks sched task complete chunks b n s)) /\
  (forall u, In u (List.concat chunks) ->
             Done u (runChunks sched task complete chunks b n s)).
Proof.
  revert b s. induction chunks as [|c rest IH]; intros b s Hc Hs.
  - cbn [runChunks List.concat]. repeat split; auto. intros u [].
  - cbn [runChunks List.concat].
    destruct (dispatch_progress c 0 b n s) as (D1 & D2 & D3 & D4);
      [apply Hc; now left | assumption |].
    destruct (dispatch task c 0 b n s) as [s1 ks]. cbn [fst snd] in *.
    pose proof (settle_perm sched b _ ks) as Hperm.
    destruct (resumeAll_progress (settle sched b _ ks) s1) as (R1 & R2 & R3);
      [eapply Permutation_Forall; [apply Permutation_sym, Hperm | exact D3]
      | assumption |].
    destruct (IH (S b) (complete b n (resumeAll (settle sched b _ ks) s1)))
      as (I1 & I2 & I3);
      [intros c' Hc'; apply Hc; now right | now apply complete_inv |].
    split; [exact I1|]. split.
    + intros u Hu. apply I2, done_complete; [exact R1 | apply R2, D2, Hu].
    + intros u Hu. apply in_app_or in Hu. destruct Hu as [Hu|Hu]; [|auto].
      apply I2, done_complete; [exact R1|].
      destruct (D4 u Hu) as [H|H]; [apply R2, H|].
      apply R3. apply Exists_exists in H. destruct H as (k & Hk & Hd).
      apply Exists_exists. exists k. split; [|assumption].
      eapply Permutation_in; [apply Permutation_sym, Hperm | exact Hk].
Qed.

(** Every item has been started, and resumed if it was suspended, when
    [batch] returns. *)
Lemma batch_progress (sched : Scheduler) (size : nat) (s : St) :
  (0 < size)%nat -> P s ->
  forall u, In u items -> Done u (batch sched task items size complete s).
Proof.
  intros Hsize Hs u Hu. unfold batch.
  destruct (runChunks_progress sched (createChunks items size) 0
              (List.length (createChunks items size)) s) as (_ & _ & H).
  - intros c. apply createChunks_fuel_incl.
  - assumption.
  - apply H. now rewrite createChunks_concat.
Qed.
End BatchProgress.

Section BatchCollect.
Context {St : Type} (collected : St -> list Url).
Variables finished resumed : Url -> list Url.
Variable task : @Task St.
Variable complete : nat -> nat -> St -> St.

Hypothesis collect_start :
  forall url i b n s,
    Permutation (collected (fst (task url i b n s)))
                (collected s ++ match snd (task url i b n s) with
                                | None => finished url
                                | Some _ => []
                                end).
Hypothesis collect_resume :
  forall url i b n s k, snd (task url i b n s) = Some k ->
    forall s', Permutation (collected (k s')) (collected s' ++ resumed url).
Hypothesis collect_complete :
  forall b n s, collected (complete b n s) = collected s.

Lemma dispatch_collect (chunk : list Url) (i b n : nat) (s : St) :
  exists fs rs,
    Permutation (fs ++ rs) chunk /\
    Permutation (collected (fst (dispatch task chunk i b n s)))
                (collected s ++ flat_map finished fs) /\
    Forall2 (fun k u => forall s', Permutation (collected (k s'))
                                               (collected s' ++ resumed u))
            (snd (dispatch task chunk i b n s)) rs.
Proof.
  revert i s. induction chunk as [|url rest IH]; intros i s.
  - exists [], []. cbn [dispatch fst snd flat_map app].
    rewrite app_nil_r. repeat split; auto.
  - pose proof (collect_start url i b n s) as Hst.
    pose proof (collect_resume url i b n s) as Hre.
    cbn [dispatch]. destruct (task url i b n s) as [s1 k].
    cbn [fst snd] in *.
    destruct (IH (S i) s1) as (fs & rs & Hp & Hc & Hf).
    destruct (dispatch task rest (S i) b n s1) as [s2 ks].
    cbn [fst snd] in *.
    destruct k as [k|].
    + exists fs, (url :: rs). split; [|split].
      * rewrite <- Hp. apply Permutation_sym, Permutation_middle.
      * rewrite Hc, Hst, app_nil_r. reflexivity.
      * constructor; [now apply Hre | assumption].
    + exists (url :: fs), rs. split; [|split].
      * cbn [app]. now constructor.
      * rewrite Hc, Hst. cbn [flat_map]. now rewrite <- app_assoc.
      * assumption.
Qed.

Lemma resumeAll_collect (ks : list (St -> St)) (rs : list Url) (s : St) :
  Forall2 (fun k u => forall s', Permutation (collected (k s'))
                                             (collected s' ++ resumed u))
          ks rs ->
  Permutation (collected (resumeAll ks s)) (collected s ++ flat_map resumed rs).
Proof.
  unfold resumeAll. intros H. revert s.
  induction H as [|k u ks rs Hk _ IH]; intros s; cbn [fold_left flat_map].
  - now rewrite app_nil_r.
  - rewrite IH, Hk. now rewrite <- app_assoc.
Qed.

Lemma runChunks_collect (sched : Scheduler) (chunks : list (list Url))
      (b n : nat) (s : St) :
  exists fs rs,
    Permutation (fs ++ rs) (List.concat chunks) /\
    Permutation (collected (runChunks sched task complete chunks b n s))
                (collected s ++ flat_map finished fs ++ flat_map resumed rs).
Proof.
  revert b s. induction chunks as [|c rest IH]; intros b s.
  - exists [], []. cbn [runChunks List.concat flat_map app].
    rewrite app_nil_r. split; auto.
  - cbn [runChunks List.concat].
    destruct (dispatch_collect c 0 b n s) as (fs1 & rs1 & Hp1 & Hc1 & Hf1).
    destruct (dispatch task c 0 b n s) as [s1 ks]. cbn [fst snd] in *.
    destruct (Permutation_Forall2
                (Permutation_sym (settle_perm sched b _ ks)) Hf1)
      as (rs1' & Hrs & Hf1').
    pose proof (resumeAll_collect _ _ s1 Hf1') as Hr.
    destruct (IH (S b) (complete b n (resumeAll (settle sched b _ ks) s1)))
      as (fs2 & rs2 & Hp2 & Hc2).
    exists (fs1 ++ fs2), (rs1 ++ rs2). split.
    + rewrite <- Hp1, <- Hp2, <- !app_assoc.
      apply Permutation_app_head.
      rewrite !app_assoc. apply Permutation_app_tail, Permutation_app_comm.
    + rewrite Hc2, collect_complete, Hr, Hc1, <- Hrs, !flat_map_app.
      rewrite <- !app_assoc. apply Permutation_app_head.
      apply Permutation_app_head.
      rewrite !app_assoc. apply Permutation_app_tail, Permutation_app_comm.
Qed.

(** What [batch] collects: the contribution of every item, once, either
    as a task that finished when started or as one that was resumed. *)
Lemma batch_collect (sched : Scheduler) (items : list Url) (size : nat)
      (s : St) :
  (0 < size)%nat ->
  exists fs rs,
    Permutation (fs ++ rs) items /\
    Permutation (collected (batch sched task items size complete s))
                (collected s ++ flat_map finished fs ++ flat_map resumed rs).
Proof.
  intros Hsize. unfold batch.
  destruct (runChunks_collect sched (createChunks items size) 0
              (List.length (createChunks items size)) s) as (fs & rs & Hp & Hc).
  exists fs, rs. split; [|assumption].
  now rewrite Hp, createChunks_concat.
Qed.
End BatchCollect.

(** ** Classification, staleness and the two policies together *)

(** X1. The page the worker builds from a status check is queued for
    submission exactly when the status is one of the five indexable ones,
    is checked again on a later run exactly when the status was RateLimited
    or the page has grown older than 14 days, and is never Processing. *)
Theorem built_page_fate (now : Z) (st : IndexingStatus) (d : TimeValue) :
  let page := {| status := classify st; indexingStatus := st;
                 lastCheckedAt := d |} in
  (shouldBeSubmitted page = true <-> In st indexableStatuses) /\
  (shouldRecheck now page = true <->
   st = RateLimited \/ exists t, d = Ms t /\ t < now - CACHE_TIMEOUT) /\
  classify st <> Processing.
Proof.
  cbv zeta. split; [|split].
  - rewrite <- includes_In.
    destruct st; split; intros H; try reflexivity; discriminate H.
  - assert (Hfailed : PageStatus_eqb (classify st) Failed
                      = IndexingStatus_eqb st RateLimited)
      by (destruct st; reflexivity).
    unfold shouldRecheck. cbn [status lastCheckedAt].
    rewrite Hfailed, orb_true_iff, isOld_lt, IndexingStatus_eqb_eq. tauto.
  - destruct st; discriminate.
Qed.

(** X2. The two staleness policies, on the same entry: [src/index.ts]
    rechecks whatever part_001 rechecks, and besides that every Failed
    entry and every old entry whose status is not in part_001's list. *)
Theorem policies_compared (now : Z) (ps : PageStatus) (st : IndexingStatus)
        (d : TimeValue) :
  shouldRecheck now {| status := ps; indexingStatus := st; lastCheckedAt := d |}
  = Part001.shouldRecheck now st d
    || PageStatus_eqb ps Failed
    || (isOld now d && negb (includes Part001.indexableStatuses st)).
Proof.
  unfold shouldRecheck, Part001.shouldRecheck. cbn [status lastCheckedAt].
  destruct (isOld now d), (PageStatus_eqb ps Failed),
    (includes Part001.indexableStatuses st); reflexivity.
Qed.

(** X3. An entry whose [lastCheckedAt] does not parse as a date is never
    old: [src/index.ts] rechecks it only if it is Failed, part_001 never
    rechecks it, at whatever time. *)
Theorem unparsable_date_never_old (now : Z) (ps : PageStatus)
        (st : IndexingStatus) :
  isOld now NaN = false /\
  shouldRecheck now {| status := ps; indexingStatus := st;
                       lastCheckedAt := NaN |}
  = PageStatus_eqb ps Failed /\
  Part001.shouldRecheck now st NaN = false.
Proof.
  repeat split.
  unfold Part001.shouldRecheck. cbn. apply andb_false_r.
Qed.

(** X4. Staleness only grows with time: an entry that either policy
    rechecks at some time is rechecked at every later time. *)
Theorem staleness_monotone (now later : Z) (page : Page)
        (Hlater : now <= later) :
  (shouldRecheck now page = true -> shouldRecheck later page = true) /\
  (Part001.shouldRecheck now (indexingStatus page) (lastCheckedAt page) = true ->
   Part001.shouldRecheck later (indexingStatus page) (lastCheckedAt page) = true).
Proof.
  assert (Hold : isOld now (lastCheckedAt page) = true ->
                 isOld later (lastCheckedAt page) = true).
  { rewrite !isOld_lt. intros (t & Ht & Hlt). exists t. split; [assumption|lia]. }
  unfold shouldRecheck, Part001.shouldRecheck. split.
  - rewrite !orb_true_iff. intros [H|H]; auto.
  - rewrite !andb_true_iff. intros [H1 H2]. auto.
Qed.

(** ** The cache object and the report, as containers *)

Lemma pages_set_NoDup (ps : Pages) (u : Url) (p : Page) :
  NoDup (pages_keys ps) -> NoDup (pages_keys (pages_set ps u p)).
Proof.
  induction ps as [|[k q] ps IH]; cbn [pages_set pages_keys map fst].
  - intros _. repeat constructor. intros [].
  - intros H. inversion H as [|? ? Hk Hps]; subst.
    destruct (String.eqb k u) eqn:E; cbn [map fst]; [assumption|].
    constructor; [|now apply IH].
    fold (pages_keys (pages_set ps u p)). rewrite pages_keys_set.
    intros [->|Hin]; [now rewrite String.eqb_refl in E | now apply Hk].
Qed.

Lemma perStatus_push_entries (pps : PerStatus) (st : IndexingStatus) (u : Url) :
  Permutation (flat_map snd (perStatus_push pps st u))
              (flat_map snd pps ++ [u]).
Proof.
  induction pps as [|[k urls] pps IH]; cbn [perStatus_push flat_map snd app].
  - reflexivity.
  - destruct (IndexingStatus_eqb k st); cbn [flat_map snd].
    + rewrite <- !app_assoc. apply Permutation_app_head, Permutation_app_comm.
    + rewrite IH. now rewrite app_assoc.
Qed.

Lemma perStatus_push_keys (pps : PerStatus) (st : IndexingStatus) (u : Url) :
  In st (map fst pps) ->
  map fst (perStatus_push pps st u) = map fst pps.
Proof.
  induction pps as [|[k urls] pps IH]; cbn [perStatus_push map fst].
  - intros [].
  - intros [->|Hin].
    + assert (E : IndexingStatus_eqb st st = true)
        by now apply IndexingStatus_eqb_eq.
      now rewrite E.
    + destruct (IndexingStatus_eqb k st); cbn [map fst];
        [reflexivity | now rewrite IH].
Qed.

Lemma perStatus_init_keys (st : IndexingStatus) :
  In st (map fst pagesPerIndexingStatus_init).
Proof. destruct st; cbn; tauto. Qed.

Lemma perStatus_get_skip (pps : PerStatus) (k : IndexingStatus)
      (urls : list Url) (l : list IndexingStatus) :
  ~ In k l ->
  flat_map (perStatus_get ((k, urls) :: pps)) l = flat_map (perStatus_get pps) l.
Proof.
  induction l as [|st l IH]; intros Hk; cbn [flat_map]; [reflexivity|].
  rewrite IH by (intros H; apply Hk; now right). f_equal.
  cbn [perStatus_get].
  destruct (IndexingStatus_eqb k st) eqn:E; [|reflexivity].
  apply IndexingStatus_eqb_eq in E. subst. exfalso. apply Hk. now left.
Qed.

(** With distinct keys, reading the report key by key gives its entries. *)
Lemma reported_entries (pps : PerStatus) :
  NoDup (map fst pps) -> reported pps = flat_map snd pps.
Proof.
  unfold reported.
  induction pps as [|[k urls] pps IH]; cbn [map fst flat_map snd];
    [reflexivity|].
  intros H. inversion H as [|? ? Hk Hpps]; subst.
  rewrite perStatus_get_skip by assumption. rewrite IH by assumption.
  cbn [perStatus_get].
  assert (E : IndexingStatus_eqb k k = true) by now apply IndexingStatus_eqb_eq.
  now rewrite E.
Qed.

Lemma report_total (pps : PerStatus) :
  list_sum (map snd (report pps)) = List.length (reported pps) /\
  Forall (fun line => snd line <> 0%nat) (report pps) /\
  incl (map fst (report pps)) (map fst pps).
Proof.
  unfold report, reported. generalize (map fst pps) as keys.
  induction keys as [|k keys (IH1 & IH2 & IH3)]; cbn [flat_map].
  - repeat split; [constructor | intros x []].
  - rewrite map_app, list_sum_app, length_app, IH1. rewrite map_app.
    destruct (List.length (perStatus_get pps k)) as [|n] eqn:E;
      cbn [Nat.eqb map snd fst list_sum fold_right app].
    + repeat split; [assumption|]. intros x Hx. right. now apply IH3.
    + repeat split.
      * lia.
      * constructor; [discriminate | assumption].
      * intros x [<-|Hx]; [now left | right; now apply IH3].
Qed.

(** ** The batch stage of [src/index.ts], URL by URL *)

Lemma flat_map_singleton {A : Type} (l : list A) :
  flat_map (fun x => [x]) l = l.
Proof. induction l as [|x l IH]; cbn [flat_map app]; now rewrite ?IH. Qed.

Section MainBatchFacts.
Context {World : Type} {C : Collaborators World}.

Lemma recheck_report (url : Url) (s : State) :
  pagesPerIndexingStatus (recheck url s) =
  perStatus_push (pagesPerIndexingStatus s)
                 (fst (getPageIndexingStatus (world s) url)) url.
Proof.
  unfold recheck. destruct (getPageIndexingStatus _ _) as [st w1].
  cbn [fst snd]. destruct (dateNow w1). reflexivity.
Qed.

Lemma worker_collects_report (url : Url) (i b n : nat) (s : State) :
  Permutation
    (flat_map snd (pagesPerIndexingStatus (fst (worker url i b n s))))
    (flat_map snd (pagesPerIndexingStatus s)
       ++ match snd (worker url i b n s) with
          | None => [url]
          | Some _ => []
          end).
Proof.
  worker_cases s url; rewrite ?app_nil_r; try reflexivity.
  apply perStatus_push_entries.
Qed.

Lemma worker_report_keys (url : Url) (i b n : nat) (s : State) :
  map fst (pagesPerIndexingStatus s) = map fst pagesPerIndexingStatus_init ->
  map fst (pagesPerIndexingStatus (fst (worker url i b n s)))
  = map fst pagesPerIndexingStatus_init.
Proof.
  intros H. worker_cases s url; try assumption.
  rewrite perStatus_push_keys; [assumption|].
  rewrite H. apply perStatus_init_keys.
Qed.

(** The keys of the report stay the nine statuses of its literal. *)
Lemma batch_report_keys (sched : Scheduler) (urls : list Url) (size : nat)
      (s : State) :
  map fst (pagesPerIndexingStatus s) = map fst pagesPerIndexingStatus_init ->
  map fst (pagesPerIndexingStatus
             (batch sched worker urls size onBatchComplete s))
  = map fst pagesPerIndexingStatus_init.
Proof.
  apply (batch_inv
           (fun s' => map fst (pagesPerIndexingStatus s')
                      = map fst pagesPerIndexingStatus_init)
           worker urls onBatchComplete).
  - intros url i b n s0 _ H0. split; [now apply worker_report_keys|].
    intros k Hk s' H'. apply worker_suspended in Hk. subst k.
    rewrite recheck_report, perStatus_push_keys; [assumption|].
    rewrite H'. apply perStatus_init_keys.
  - intros b n s0 H0. exact H0.
Qed.

(** X5. When the batch stage is over, the report holds every URL of the
    run, as often as the URL list does and nothing else: the report lines
    (lines 159-163) name statuses of the literal, none with 0 pages, and
    their page counts add up to the number of URLs. *)
Theorem report_accounts_for_run (sched : Scheduler) (urls : list Url)
        (w : World) (loaded : Pages) (ev : list Event) :
  let s1 := batch sched worker urls 50 onBatchComplete
                  {| world := w; pages := loaded;
                     pagesPerIndexingStatus := pagesPerIndexingStatus_init;
                     events := ev |} in
  Permutation (reported (pagesPerIndexingStatus s1)) urls /\
  list_sum (map snd (report (pagesPerIndexingStatus s1))) = List.length urls /\
  Forall (fun line => snd line <> 0%nat) (report (pagesPerIndexingStatus s1)) /\
  incl (map fst (report (pagesPerIndexingStatus s1)))
       (map fst pagesPerIndexingStatus_init).
Proof.
  intros s1.
  set (s0 := {| world := w; pages := loaded;
                pagesPerIndexingStatus := pagesPerIndexingStatus_init;
                events := ev |}) in s1.
  assert (Hkeys : map fst (pagesPerIndexingStatus s1)
                  = map fst pagesPerIndexingStatus_init)
    by (apply batch_report_keys; reflexivity).
  assert (Hnodup : NoDup (map fst (pagesPerIndexingStatus s1))).
  { rewrite Hkeys. cbn.
    repeat (constructor;
            [cbn [In]; intros H;
             repeat (destruct H as [H|H]; [discriminate H|]); exact H|]).
    constructor. }
  destruct (batch_collect
              (fun s => flat_map snd (pagesPerIndexingStatus s))
              (fun u => [u]) (fun u => [u]) worker onBatchComplete
              worker_collects_report) with (sched := sched) (items := urls)
              (size := 50%nat) (s := s0) as (fs & rs & Hp & Hc).
  - intros url i b n s k Hk s'. apply worker_suspended in Hk. subst k.
    rewrite recheck_report. apply perStatus_push_entries.
  - reflexivity.
  - lia.
  - fold s1 in Hc. cbn in Hc. rewrite !flat_map_singleton in Hc.
    assert (Hrep : Permutation (reported (pagesPerIndexingStatus s1)) urls).
    { rewrite reported_entries by assumption. now rewrite Hc. }
    destruct (report_total (pagesPerIndexingStatus s1)) as (R1 & R2 & R3).
    split; [assumption|]. split; [|split; [assumption|]].
    + rewrite R1. now apply Permutation_length.
    + now rewrite <- Hkeys.
Qed.

Lemma finished_checked (o : option (list Url)) (file : CacheFile)
      (w w1 : World) (urls : list Url) (ev : list Event) (r : option bool)
      (q : list Url) (w' : World) (evs : list Event) (ps : Pages) :
  enumerateUrls o w = (inr urls, w1, ev) ->
  checkedUrls (ev ++ match file with Absent => [] | _ => [ReadCacheFile] end)
  = [] /\
  checkedUrls (evs ++ [MakeCacheDir; WriteCacheFile ps]
                   ++ snd (submitAll r q w'))
  = checkedUrls evs.
Proof.
  intros He. unfold checkedUrls. rewrite !flat_map_app.
  destruct (enumerateUrls_events o w) as (_ & _ & E).
  rewrite He in E. cbn [snd] in E. unfold checkedUrls in E. rewrite E.
  pose proof (submitAll_submissions r q w') as Hs.
  apply submission_not_checked in Hs. destruct Hs as (S1 & _ & _).
  unfold checkedUrls in S1. rewrite S1. cbn [flat_map app].
  rewrite app_nil_r. split; [destruct file; reflexivity | reflexivity].
Qed.

(** An entry is the loaded one until its URL is checked. *)
Lemma batch_loaded_or_checked (sched : Scheduler) (urls : list Url)
      (size : nat) (s : State) (loaded : Pages) :
  (forall v, pages_get (pages s) v = pages_get loaded v \/
             In v (checkedUrls (events s))) ->
  forall v,
    pages_get (pages (batch sched worker urls size onBatchComplete s)) v
    = pages_get loaded v \/
    In v (checkedUrls (events (batch sched worker urls size onBatchComplete s))).
Proof.
  apply (batch_inv
           (fun s' => forall v, pages_get (pages s') v = pages_get loaded v \/
                                In v (checkedUrls (events s')))
           worker urls onBatchComplete).
  - intros url i b n s0 _ H0. split.
    + now rewrite worker_pages, worker_events.
    + intros k Hk s' H' v. apply worker_suspended in Hk. subst k.
      rewrite recheck_pages, recheck_events, checkedUrls_snoc. cbv zeta.
      destruct (String.eqb url v) eqn:E.
      * apply String.eqb_eq in E. subst v. right.
        apply in_or_app. right. now left.
      * apply String.eqb_neq in E.
        rewrite pages_get_set_other by assumption.
        destruct (H' v) as [H|H]; [now left|].
        right. apply in_or_app. now left.
  - intros b n s0 H0 v. cbn [onBatchComplete pages events].
    destruct (H0 v) as [H|H]; [now left|]. right.
    unfold checkedUrls in *. rewrite flat_map_app. apply in_or_app. now left.
Qed.
End MainBatchFacts.

(** ** Runs of [src/index.ts]: what is checked, cached and submitted *)

Section MainRunFacts.
Context {World : Type} {C : Collaborators World}.

Lemma submitAll_requested_cons (r : option bool) (url : Url)
      (rest : list Url) (w : World) :
  exists w2,
    requestedUrls (snd (submitAll r (url :: rest) w)) =
    requestedUrls (snd (submitAll r rest w2)) \/
    requestedUrls (snd (submitAll r (url :: rest) w)) =
    url :: requestedUrls (snd (submitAll r rest w2)).
Proof.
  rewrite submitAll_cons. cbv zeta. cbn [snd].
  unfold requestedUrls. cbn [flat_map app]. rewrite flat_map_app.
  destruct (_ =? 404); eexists; [right | left]; reflexivity.
Qed.

Lemma submitAll_requested_incl (r : option bool) (q : list Url) (w : World) :
  incl (requestedUrls (snd (submitAll r q w))) q.
Proof.
  revert w. induction q as [|url rest IH]; intros w.
  - intros u [].
  - destruct (submitAll_requested_cons r url rest w) as (w2 & [-> | ->]);
      intros u Hu.
    + right. now apply (IH w2).
    + destruct Hu as [<-|Hu]; [now left | right; now apply (IH w2)].
Qed.

Lemma submitAll_requested_NoDup (r : option bool) (q : list Url) (w : World) :
  NoDup q -> NoDup (requestedUrls (snd (submitAll r q w))).
Proof.
  revert w. induction q as [|url rest IH]; intros w Hq.
  - constructor.
  - inversion Hq as [|? ? Hn Hrest]; subst.
    destruct (submitAll_requested_cons r url rest w) as (w2 & [-> | ->]).
    + now apply IH.
    + constructor; [|now apply IH].
      intros Hin. apply submitAll_requested_incl in Hin. contradiction.
Qed.

(** X6. When a run finishes, the cache holds an entry for every URL that
    was loaded and for every URL of the run, and for no other. *)
Theorem every_url_cached (sched : Scheduler) (o : option (list Url))
        (r : option bool) (file : CacheFile) (w w1 : World)
        (urls : list Url) (ev : list Event) (loaded : Pages)
        (Henum : enumerateUrls o w = (inr urls, w1, ev))
        (Hload : loadCache file = Some loaded) (u : Url) :
  In u (pages_keys (savedPages (index sched o r file w))) <->
  In u (pages_keys loaded) \/ In u urls.
Proof.
  rewrite (index_finished sched o r file w w1 urls ev loaded Henum Hload).
  cbv zeta. cbn [savedPages].
  set (s0 := {| world := w1; pages := loaded;
                pagesPerIndexingStatus := pagesPerIndexingStatus_init;
                events := _ |}).
  split.
  - revert u.
    apply (batch_inv
             (fun s' => forall u, In u (pages_keys (pages s')) ->
                                  In u (pages_keys loaded) \/ In u urls)
             worker urls onBatchComplete).
    + intros url i b n s Hurl Hs. split.
      * now rewrite worker_pages.
      * intros k Hk s' H' u. apply worker_suspended in Hk. subst k.
        rewrite recheck_pages. cbv zeta. rewrite pages_keys_set.
        intros [->|Hu]; [now right | now apply H'].
    + intros b n s Hs. exact Hs.
    + intros u Hu. now left.
  - intros [Hu|Hu]; [now apply batch_keys|].
    apply (batch_progress
             (fun _ => True) (fun u s' => In u (pages_keys (pages s')))
             worker urls onBatchComplete); auto; try lia.
    + intros u' url i b n s _ H. now rewrite worker_pages.
    + intros u' url i b n s k _ _ Hk s' _ H.
      apply worker_suspended in Hk. subst k.
      rewrite recheck_pages. cbv zeta. apply pages_keys_set. now right.
    + intros url i b n s _ _.
      destruct (snd (worker url i b n s)) as [k|] eqn:Hk.
      * intros s' _. apply worker_suspended in Hk. subst k.
        rewrite recheck_pages. cbv zeta. apply pages_keys_set. now left.
      * rewrite worker_pages. apply pages_get_keys.
        revert Hk. unfold worker.
        destruct (pages_get (pages s) url) as [p|]; [now exists p|].
        discriminate.
Qed.

(** X7. The status checks of a run are spent on URLs of the run, one at
    most for each occurrence of a URL in the list. *)
Theorem status_checks_within_urls (sched : Scheduler) (o : option (list Url))
        (r : option bool) (file : CacheFile) (w w1 : World)
        (urls : list Url) (ev : list Event) (loaded : Pages)
        (Henum : enumerateUrls o w = (inr urls, w1, ev))
        (Hload : loadCache file = Some loaded) :
  exists spared,
    Permutation (checkedUrls (trace (index sched o r file w)) ++ spared) urls.
Proof.
  rewrite (index_finished sched o r file w w1 urls ev loaded Henum Hload).
  cbv zeta. cbn [trace].
  set (s0 := {| world := w1; pages := loaded;
                pagesPerIndexingStatus := pagesPerIndexingStatus_init;
                events := _ |}).
  destruct (finished_checked o file w w1 urls ev r
              (selectQueue (pages (batch sched worker urls 50 onBatchComplete s0)))
              (world (batch sched worker urls 50 onBatchComplete s0))
              (events (batch sched worker urls 50 onBatchComplete s0))
              (pages (batch sched worker urls 50 onBatchComplete s0)) Henum)
    as [E0 E1].
  rewrite E1.
  destruct (batch_collect
              (fun s => checkedUrls (events s))
              (fun _ => []) (fun u => [u]) worker onBatchComplete)
    with (sched := sched) (items := urls) (size := 50%nat) (s := s0)
    as (fs & rs & Hp & Hc).
  - intros url i b n s. rewrite worker_events.
    destruct (snd (worker url i b n s)); now rewrite app_nil_r.
  - intros url i b n s k Hk s'. apply worker_suspended in Hk. subst k.
    now rewrite recheck_events, checkedUrls_snoc.
  - intros b n s. cbn [onBatchComplete events]. unfold checkedUrls.
    rewrite flat_map_app. apply app_nil_r.
  - lia.
  - exists fs. rewrite Hc. cbn [events s0]. rewrite E0.
    rewrite flat_map_singleton.
    assert (Hnil : flat_map (fun _ : Url => @nil Url) fs = [])
      by (clear; induction fs; auto).
    rewrite Hnil. cbn [app]. rewrite <- Hp. apply Permutation_app_comm.
Qed.

(** X8. A status check is only spent on a URL that had no entry in the
    loaded cache, or whose loaded entry was due for a recheck at some
    reading of the clock. *)
Theorem checks_have_reason (sched : Scheduler) (o : option (list Url))
        (r : option bool) (file : CacheFile) (w w1 : World)
        (urls : list Url) (ev : list Event) (loaded : Pages) (u : Url)
        (Henum : enumerateUrls o w = (inr urls, w1, ev))
        (Hload : loadCache file = Some loaded)
        (Hchecked : In u (checkedUrls (trace (index sched o r file w)))) :
  pages_get loaded u = None \/
  exists p w', pages_get loaded u = Some p /\
               shouldRecheck (fst (dateNow w')) p = true.
Proof.
  revert Hchecked.
  rewrite (index_finished sched o r file w w1 urls ev loaded Henum Hload).
  cbv zeta. cbn [trace].
  set (s0 := {| world := w1; pages := loaded;
                pagesPerIndexingStatus := pagesPerIndexingStatus_init;
                events := _ |}).
  destruct (finished_checked o file w w1 urls ev r
              (selectQueue (pages (batch sched worker urls 50 onBatchComplete s0)))
              (world (batch sched worker urls 50 onBatchComplete s0))
              (events (batch sched worker urls 50 onBatchComplete s0))
              (pages (batch sched worker urls 50 onBatchComplete s0)) Henum)
    as [E0 E1].
  rewrite E1. revert u.
  apply (batch_inv
           (fun s' =>
              (forall v, pages_get (pages s') v = pages_get loaded v \/
                         In v (checkedUrls (events s'))) /\
              forall u, In u (checkedUrls (events s')) ->
                        pages_get loaded u = None \/
                        exists p w', pages_get loaded u = Some p /\
                                     shouldRecheck (fst (dateNow w')) p = true)
           worker urls onBatchComplete).
  - intros url i b n s _ [Hs1 Hs2]. split.
    + rewrite worker_pages, worker_events. now split.
    + intros k Hk s' [H1' H2'].
      assert (Hurl : pages_get loaded url = None \/
                     exists p w', pages_get loaded url = Some p /\
                                  shouldRecheck (fst (dateNow w')) p = true).
      { destruct (Hs1 url) as [Hsame|Hdone]; [|now apply Hs2].
        rewrite <- Hsame. revert Hk. unfold worker.
        destruct (pages_get (pages s) url) as [p|]; [|now left].
        destruct (dateNow (world s)) as [now w2] eqn:Hnow.
        destruct (shouldRecheck now p) eqn:Hre; [|discriminate].
        intros _. right. exists p, (world s). now rewrite Hnow. }
      apply worker_suspended in Hk. subst k. split.
      * intros v. rewrite recheck_pages, recheck_events, checkedUrls_snoc.
        cbv zeta. destruct (String.eqb url v) eqn:E.
        -- apply String.eqb_eq in E. subst v. right.
           apply in_or_app. right. now left.
        -- apply String.eqb_neq in E.
           rewrite pages_get_set_other by assumption.
           destruct (H1' v) as [H|H]; [now left|].
           right. apply in_or_app. now left.
      * intros v. rewrite recheck_events, checkedUrls_snoc.
        intros Hv. apply in_app_or in Hv.
        destruct Hv as [Hv|[<-|[]]]; [now apply H2' | exact Hurl].
  - intros b n s [Hs1 Hs2]. cbn [onBatchComplete pages events].
    assert (Hc : checkedUrls (events s ++ [BatchComplete b n])
                 = checkedUrls (events s))
      by (unfold checkedUrls; rewrite flat_map_app; apply app_nil_r).
    rewrite Hc. now split.
  - cbn [s0 pages events]. rewrite E0. split; [now left | intros v []].
Qed.
End MainRunFacts.

Section MainRunFacts2.
Context {World : Type} {C : Collaborators World}.

(** X9. A URL of the run that has no entry in the loaded cache, or whose
    loaded entry is due for a recheck whenever the clock is read, has its
    status checked in the run, is cached with the classification of a
    status the check returned, and is queued exactly when that status is
    one of the five indexable ones. *)
Theorem missing_or_stale_is_checked
        (sched : Scheduler) (o : option (list Url))
        (r : option bool) (file : CacheFile) (w w1 : World)
        (urls : list Url) (ev : list Event) (loaded : Pages) (u : Url)
        (Henum : enumerateUrls o w = (inr urls, w1, ev))
        (Hload : loadCache file = Some loaded)
        (Hlisted : In u urls)
        (Hdue : forall p, pages_get loaded u = Some p ->
                forall w', shouldRecheck (fst (dateNow w')) p = true) :
  In u (checkedUrls (trace (index sched o r file w))) /\
  exists st t,
    In (CallGetPageIndexingStatus u st) (trace (index sched o r file w)) /\
    pages_get (savedPages (index sched o r file w)) u =
    Some {| status := classify st; indexingStatus := st;
            lastCheckedAt := Ms t |} /\
    (In u (queue (index sched o r file w)) <-> In st indexableStatuses).
Proof.
  rewrite (index_finished sched o r file w w1 urls ev loaded Henum Hload).
  cbv zeta. cbn [trace savedPages queue].
  set (s0 := {| world := w1; pages := loaded;
                pagesPerIndexingStatus := pagesPerIndexingStatus_init;
                events := _ |}).
  set (s1 := batch sched worker urls 50 onBatchComplete s0).
  destruct (finished_checked o file w w1 urls ev r
              (selectQueue (pages s1)) (world s1) (events s1) (pages s1) Henum)
    as [E0 E1].
  rewrite E1.
  assert (Hin : (fun v s' => v = u -> In u (checkedUrls (events s'))) u s1).
  { apply (batch_progress
             (fun s' => forall v, pages_get (pages s') v = pages_get loaded v \/
                                  In v (checkedUrls (events s')))
             (fun v s' => v = u -> In u (checkedUrls (events s')))
             worker urls onBatchComplete); auto; try lia.
    - intros url i b n s _ Hs. split.
      + now rewrite worker_pages, worker_events.
      + intros k Hk s' H' v. apply worker_suspended in Hk. subst k.
        rewrite recheck_pages, recheck_events, checkedUrls_snoc. cbv zeta.
        destruct (String.eqb url v) eqn:E.
        * apply String.eqb_eq in E. subst v. right.
          apply in_or_app. right. now left.
        * apply String.eqb_neq in E.
          rewrite pages_get_set_other by assumption.
          destruct (H' v) as [H|H]; [now left|].
          right. apply in_or_app. now left.
    - intros b n s Hs v. cbn [onBatchComplete pages events].
      destruct (Hs v) as [H|H]; [now left|]. right.
      unfold checkedUrls in *. rewrite flat_map_app. apply in_or_app. now left.
    - intros v url i b n s _ H Hv. rewrite worker_events. auto.
    - intros v url i b n s k _ _ Hk s' _ H Hv.
      apply worker_suspended in Hk. subst k.
      rewrite recheck_events, checkedUrls_snoc. apply in_or_app. left. auto.
    - intros v b n s _ H Hv. cbn [onBatchComplete events].
      unfold checkedUrls in *. rewrite flat_map_app. apply in_or_app.
      left. auto.
    - intros url i b n s _ Hs.
      destruct (snd (worker url i b n s)) as [k|] eqn:Hk.
      + intros s' _ ->. apply worker_suspended in Hk. subst k.
        rewrite recheck_events, checkedUrls_snoc.
        apply in_or_app. right. now left.
      + intros ->. rewrite worker_events.
        destruct (Hs u) as [Hsame|Hdone]; [|assumption].
        exfalso. revert Hk. unfold worker. rewrite Hsame.
        destruct (pages_get loaded u) as [p|] eqn:Hp; [|discriminate].
        specialize (Hdue p eq_refl (world s)).
        destruct (dateNow (world s)) as [now w2]. cbn [fst] in Hdue.
        rewrite Hdue. discriminate. }
  specialize (Hin eq_refl).
  split; [assumption|].
  destruct (batch_pages sched urls 50 s0) as (evs & Hev & Hpages).
  fold s1 in Hev, Hpages. cbn [events pages s0] in Hev, Hpages.
  assert (Hevs : In u (checkedUrls evs)).
  { rewrite Hev in Hin. unfold checkedUrls in Hin.
    rewrite flat_map_app in Hin. fold (checkedUrls evs) in Hin.
    unfold checkedUrls in E0. rewrite E0 in Hin. exact Hin. }
  destruct (Hpages u) as [[Hn _] | [_ (wa & wb & Hev' & Hg)]];
    [contradiction|].
  exists (fst (getPageIndexingStatus wa u)), (fst (dateNow wb)).
  split; [|split; [assumption|]].
  - rewrite Hev. apply in_or_app. left. apply in_or_app. now right.
  - rewrite selectQueue_In, Hg, <- includes_In. split.
    + intros (p & [= <-] & Hp). cbn [status] in Hp. revert Hp.
      destruct (fst (getPageIndexingStatus wa u)); try discriminate;
        reflexivity.
    + intros Hi. eexists. split; [reflexivity|]. cbn [status]. revert Hi.
      destruct (fst (getPageIndexingStatus wa u)); try discriminate;
        reflexivity.
Qed.

(** X10. A run whose URLs all have an entry that is never due for a
    recheck checks no status at all and writes the loaded mapping back as
    it was. *)
Theorem incremental_run (sched : Scheduler) (o : option (list Url))
        (r : option bool) (file : CacheFile) (w w1 : World)
        (urls : list Url) (ev : list Event) (loaded : Pages)
        (Henum : enumerateUrls o w = (inr urls, w1, ev))
        (Hload : loadCache file = Some loaded)
        (Hfresh : forall u, In u urls ->
                  exists p, pages_get loaded u = Some p /\
                            forall w', shouldRecheck (fst (dateNow w')) p = false) :
  checkedUrls (trace (index sched o r file w)) = [] /\
  savedPages (index sched o r file w) = loaded /\
  cacheFile (index sched o r file w) = Stored loaded.
Proof.
  rewrite (index_finished sched o r file w w1 urls ev loaded Henum Hload).
  cbv zeta. cbn [trace savedPages cacheFile].
  set (s0 := {| world := w1; pages := loaded;
                pagesPerIndexingStatus := pagesPerIndexingStatus_init;
                events := _ |}).
  set (s1 := batch sched worker urls 50 onBatchComplete s0).
  destruct (finished_checked o file w w1 urls ev r
              (selectQueue (pages s1)) (world s1) (events s1) (pages s1) Henum)
    as [E0 E1].
  rewrite E1.
  assert (H : pages s1 = loaded /\ checkedUrls (events s1) = []).
  { apply (batch_inv
             (fun s' => pages s' = loaded /\ checkedUrls (events s') = [])
             worker urls onBatchComplete).
    - intros url i b n s Hurl [Hs1 Hs2]. split.
      + now rewrite worker_pages, worker_events.
      + intros k Hk. exfalso.
        destruct (Hfresh url Hurl) as (p & Hp & Hf).
        rewrite <- Hs1 in Hp.
        rewrite (worker_fresh url i b n s p Hp (Hf _)) in Hk. discriminate.
    - intros b n s [Hs1 Hs2]. cbn [onBatchComplete pages events].
      split; [assumption|]. unfold checkedUrls in *.
      now rewrite flat_map_app, Hs2.
    - now split. }
  destruct H as [-> ->]. repeat split.
Qed.

(** X11. If the loaded cache has one entry per URL, so has the cache at
    the end of the run, and no URL is queued, has its publish metadata
    fetched, or has indexing requested for it more than once in the run,
    however often the URL list repeats it. *)
Theorem one_submission_per_url (sched : Scheduler) (o : option (list Url))
        (r : option bool) (file : CacheFile) (w w1 : World)
        (urls : list Url) (ev : list Event) (loaded : Pages)
        (Henum : enumerateUrls o w = (inr urls, w1, ev))
        (Hload : loadCache file = Some loaded)
        (Hkeys : NoDup (pages_keys loaded)) :
  NoDup (pages_keys (savedPages (index sched o r file w))) /\
  NoDup (queue (index sched o r file w)) /\
  NoDup (map fst (queriedUrls (trace (index sched o r file w)))) /\
  NoDup (requestedUrls (trace (index sched o r file w))).
Proof.
  destruct (index_submissions sched o r file w)
    as (before & w' & T & _ & B & _).
  cbv zeta in T. rewrite T.
  apply no_submission_queried in B. destruct B as (B1 & _ & B3).
  unfold queriedUrls, requestedUrls in *.
  rewrite !flat_map_app, B1, B3. cbn [app].
  fold (queriedUrls (snd (submitAll r (queue (index sched o r file w)) w'))).
  fold (requestedUrls (snd (submitAll r (queue (index sched o r file w)) w'))).
  rewrite submitAll_queried, map_map. cbn [fst]. rewrite map_id.
  rewrite (index_finished sched o r file w w1 urls ev loaded Henum Hload).
  cbv zeta. cbn [savedPages queue].
  set (s0 := {| world := w1; pages := loaded;
                pagesPerIndexingStatus := pagesPerIndexingStatus_init;
                events := _ |}).
  assert (Hs1 : NoDup (pages_keys
                         (pages (batch sched worker urls 50 onBatchComplete s0)))).
  { apply (batch_inv (fun s' => NoDup (pages_keys (pages s')))
                     worker urls onBatchComplete).
    - intros url i b n s _ Hs. split.
      + now rewrite worker_pages.
      + intros k Hk s' H'. apply worker_suspended in Hk. subst k.
        rewrite recheck_pages. cbv zeta. now apply pages_set_NoDup.
    - intros b n s Hs. exact Hs.
    - exact Hkeys. }
  assert (Hq : NoDup (selectQueue
                        (pages (batch sched worker urls 50 onBatchComplete s0))))
    by (unfold selectQueue; now apply NoDup_filter).
  repeat split; try assumption.
  now apply submitAll_requested_NoDup.
Qed.

(** X12. Indexing is only ever requested for a URL of the queue, that is,
    one whose cache entry at the end of the batch stage is Pending. *)
Theorem requests_only_pending (sched : Scheduler) (o : option (list Url))
        (r : option bool) (file : CacheFile) (w : World) (u : Url)
        (Hrequested : In u (requestedUrls (trace (index sched o r file w)))) :
  In u (queue (index sched o r file w)) /\
  exists p, pages_get (savedPages (index sched o r file w)) u = Some p /\
            status p = Pending.
Proof.
  destruct (index_submissions sched o r file w)
    as (before & w' & T & _ & B & _).
  cbv zeta in T. rewrite T in Hrequested.
  apply no_submission_queried in B. destruct B as (_ & _ & B3).
  unfold requestedUrls in Hrequested.
  rewrite flat_map_app in Hrequested. unfold requestedUrls in B3.
  rewrite B3 in Hrequested. cbn [app] in Hrequested.
  apply submitAll_requested_incl in Hrequested.
  split; [assumption|].
  revert Hrequested.
  destruct (enumerateUrls o w) as [[[code|urls] w1] ev] eqn:He.
  - rewrite (index_exited sched o r file w w1 code ev He). intros [].
  - destruct (loadCache file) as [loaded|] eqn:Hl.
    + rewrite (index_finished sched o r file w w1 urls ev loaded He Hl).
      cbv zeta. cbn [queue savedPages]. apply selectQueue_In.
    + rewrite (index_threw sched o r file w w1 urls ev He Hl). intros [].
Qed.
End MainRunFacts2.

(** ** part_001: runs of the second variant *)

Module Part001Facts.
Import Part001Run.

Lemma statusPerUrl_get_set_same (m : StatusPerUrl) (u : Url) (res : Result) :
  statusPerUrl_get (statusPerUrl_set m u res) u = Some res.
Proof.
  induction m as [|[k q] m IH]; cbn [statusPerUrl_set statusPerUrl_get].
  - now rewrite String.eqb_refl.
  - destruct (String.eqb k u) eqn:E; cbn [statusPerUrl_get]; now rewrite E.
Qed.

Lemma statusPerUrl_get_set_other (m : StatusPerUrl) (u v : Url) (res : Result) :
  u <> v -> statusPerUrl_get (statusPerUrl_set m u res) v = statusPerUrl_get m v.
Proof.
  intros Hne.
  induction m as [|[k q] m IH]; cbn [statusPerUrl_set statusPerUrl_get].
  - destruct (String.eqb u v) eqn:E; [|reflexivity].
    apply String.eqb_eq in E. contradiction.
  - destruct (String.eqb k u) eqn:E; cbn [statusPerUrl_get].
    + apply String.eqb_eq in E. subst k.
      destruct (String.eqb u v) eqn:E2; [|reflexivity].
      apply String.eqb_eq in E2. contradiction.
    + now rewrite IH.
Qed.

(** The queue holds pages of the report, each as often as the report at most. *)
Lemma indexablePages_within (pps : PerStatus) :
  exists others, Permutation (indexablePages pps ++ others) (flat_map snd pps).
Proof.
  unfold indexablePages.
  induction pps as [|[k l] pps (others & IH)]; cbn [flat_map snd].
  - now exists [].
  - destruct (includes Part001.indexableStatuses k).
    + exists others. rewrite <- app_assoc. now apply Permutation_app_head.
    + exists (l ++ others). cbn [app]. rewrite <- IH.
      rewrite !app_assoc. apply Permutation_app_tail, Permutation_app_comm.
Qed.

Lemma indexablePages_push (pps : PerStatus) (st : IndexingStatus) (v : Url) :
  Permutation (indexablePages (perStatus_push pps st v))
              (indexablePages pps
                 ++ if includes Part001.indexableStatuses st then [v] else []).
Proof.
  unfold indexablePages.
  induction pps as [|[k l] pps IH]; cbn [perStatus_push flat_map].
  - now rewrite app_nil_r.
  - destruct (IndexingStatus_eqb k st) eqn:E; cbn [flat_map].
    + apply IndexingStatus_eqb_eq in E. subst k.
      destruct (includes Part001.indexableStatuses st).
      * rewrite <- !app_assoc. apply Permutation_app_head, Permutation_app_comm.
      * now rewrite app_nil_r.
    + rewrite IH. now rewrite app_assoc.
Qed.

Lemma indexablePages_push_In (pps : PerStatus) (st : IndexingStatus)
      (u v : Url) :
  (In u (indexablePages pps) -> In u (indexablePages (perStatus_push pps st v)))
  /\
  (includes Part001.indexableStatuses st = true ->
   In v (indexablePages (perStatus_push pps st v))).
Proof.
  split; intros H;
    (eapply Permutation_in;
     [apply Permutation_sym, indexablePages_push|]);
    apply in_or_app.
  - now left.
  - right. rewrite H. now left.
Qed.

Ltac worker2_cases s url :=
  unfold worker;
  destruct (statusPerUrl_get (statusPerUrl s) url) as [?result|] eqn:?Hget;
  [ destruct (dateNow (world s)) as [?now ?w] eqn:?Hnow;
    match goal with
    | |- context [Part001.shouldRecheck ?n ?a ?b] =>
        destruct (Part001.shouldRecheck n a b) eqn:?Hrecheck
    end
  | ];
  cbn [fst snd world statusPerUrl pagesPerStatus events].

Section Runs.
Context {World : Type} {C : Collaborators World}.

Lemma recheck2_eq (url : Url) (s : State) :
  recheck url s =
  let st := fst (getPageIndexingStatus (world s) url) in
  let w1 := snd (getPageIndexingStatus (world s) url) in
  {| world := snd (dateNow w1);
     statusPerUrl :=
       statusPerUrl_set (statusPerUrl s) url
                        {| status := st; lastCheckedAt := Ms (fst (dateNow w1)) |};
     pagesPerStatus := perStatus_push (pagesPerStatus s) st url;
     events := events s ++ [CallGetPageIndexingStatus url st] |}.
Proof.
  unfold recheck. destruct (getPageIndexingStatus _ _) as [st w1].
  cbn [fst snd]. destruct (dateNow w1). reflexivity.
Qed.

Lemma worker2_suspended (url : Url) (i b n : nat) (s : State)
      (k : State -> State) :
  snd (worker url i b n s) = Some k -> k = recheck url.
Proof. worker2_cases s url; intros H; congruence. Qed.

Lemma worker2_statuses (url : Url) (i b n : nat) (s : State) :
  statusPerUrl (fst (worker url i b n s)) = statusPerUrl s.
Proof. worker2_cases s url; reflexivity. Qed.

Lemma worker2_events (url : Url) (i b n : nat) (s : State) :
  events (fst (worker url i b n s)) = events s.
Proof. worker2_cases s url; reflexivity. Qed.

Lemma worker2_collects (url : Url) (i b n : nat) (s : State) :
  Permutation
    (flat_map snd (pagesPerStatus (fst (worker url i b n s))))
    (flat_map snd (pagesPerStatus s)
       ++ match snd (worker url i b n s) with
          | None => [url]
          | Some _ => []
          end).
Proof.
  worker2_cases s url; rewrite ?app_nil_r; try reflexivity.
  apply perStatus_push_entries.
Qed.

Lemma checked2_snoc (evs : list Event) (url : Url) (st : IndexingStatus) :
  checkedUrls (evs ++ [CallGetPageIndexingStatus url st]) =
  checkedUrls evs ++ [url].
Proof. unfold checkedUrls. now rewrite flat_map_app. Qed.

Lemma checked2_complete (evs : list Event) (b n : nat) :
  checkedUrls (evs ++ [BatchComplete b n]) = checkedUrls evs.
Proof. unfold checkedUrls. rewrite flat_map_app. apply app_nil_r. Qed.

Lemma submitAll2_cons (rpmRetry : option bool) (url : Url) (rest : list Url)
      (w : World) :
  let retries := if truthy rpmRetry then QUOTA.rpm.retries else 0%nat in
  let status := fst (getPublishMetadata w url retries) in
  let w1 := snd (getPublishMetadata w url retries) in
  let w2 := if status =? 404 then requestIndexing w1 url else w1 in
  submitAll rpmRetry (url :: rest) w =
  (fst (submitAll rpmRetry rest w2),
   CallGetPublishMetadata url retries status
     :: (if status =? 404 then [CallRequestIndexing url] else [])
     ++ snd (submitAll rpmRetry rest w2)).
Proof.
  simpl. destruct (getPublishMetadata w url _) as [status w1]. simpl.
  destruct (status =? 404);
    match goal with
    | |- context [submitAll ?r ?q ?x] => destruct (submitAll r q x)
    end; reflexivity.
Qed.

(** The loop fetches the publish metadata of the queue, in order, checks
    no status, and requests indexing only for URLs of the queue. *)
Lemma submitAll2_shape (rpmRetry : option bool) (q : list Url) (w : World) :
  queriedUrls (snd (submitAll rpmRetry q w)) = q /\
  checkedUrls (snd (submitAll rpmRetry q w)) = [] /\
  incl (requestedUrls (snd (submitAll rpmRetry q w))) q.
Proof.
  revert w. induction q as [|url rest IH]; intros w.
  - repeat split. intros u [].
  - rewrite submitAll2_cons. cbv zeta. cbn [snd].
    match goal with
    | |- context [submitAll rpmRetry rest ?x] =>
        destruct (IH x) as (I1 & I2 & I3)
    end.
    unfold queriedUrls, checkedUrls, requestedUrls in *.
    cbn [flat_map app]. rewrite !flat_map_app, I1, I2.
    destruct (_ =? 404); cbn [flat_map app]; repeat split.
    + intros u [<-|Hu]; [now left | right; now apply I3].
    + intros u Hu. right. now apply I3.
Qed.

Lemma enumeratePages_checked (o : option (list Url)) (w : World) :
  checkedUrls (snd (enumeratePages o w)) = [] /\
  requestedUrls (snd (enumeratePages o w)) = [] /\
  queriedUrls (snd (enumeratePages o w)) = [].
Proof.
  unfold enumeratePages.
  destruct (List.length _ =? 0)%nat; [|now repeat split].
  destruct (getSitemapUrls w) as [[sitemaps urls] w1].
  destruct (List.length sitemaps =? 0)%nat; now repeat split.
Qed.

Lemma index2_finished (sched : Scheduler) (o : option (list Url))
      (r : option bool) (file : CacheFile) (w w1 : World)
      (urls : list Url) (ev : list Event) (loaded : StatusPerUrl) :
  enumeratePages o w = (inr urls, w1, ev) ->
  loadCache file = Some loaded ->
  let reads := match file with Absent => [] | _ => [ReadCacheFile] end in
  let s1 := batch sched worker urls 50 onBatchComplete
                  {| world := w1; statusPerUrl := loaded;
                     pagesPerStatus := pagesPerIndexingStatus_init;
                     events := ev ++ reads |} in
  let q := indexablePages (pagesPerStatus s1) in
  index sched o r file w =
  {| outcome := Finished;
     trace := events s1 ++ [MakeCacheDir; WriteCacheFile (statusPerUrl s1)]
                        ++ snd (submitAll r q (world s1));
     cacheFile := Stored (statusPerUrl s1);
     finalWorld := fst (submitAll r q (world s1));
     savedStatuses := statusPerUrl s1;
     report := pagesPerStatus s1;
     queue := q |}.
Proof.
  intros H Hl. unfold index. rewrite H, Hl. cbv zeta.
  destruct (submitAll _ _ _). reflexivity.
Qed.

(** What the trace of a finished run holds, stage by stage. *)
Lemma finished2_trace (o : option (list Url)) (file : CacheFile)
      (w w1 : World) (urls : list Url) (ev : list Event) (r : option bool)
      (q : list Url) (w' : World) (evs : list Event) (m : StatusPerUrl) :
  enumeratePages o w = (inr urls, w1, ev) ->
  checkedUrls (ev ++ match file with Absent => [] | _ => [ReadCacheFile] end)
  = [] /\
  checkedUrls (evs ++ [MakeCacheDir; WriteCacheFile m] ++ snd (submitAll r q w'))
  = checkedUrls evs.
Proof.
  intros He. destruct (enumeratePages_checked o w) as (E & _ & _).
  rewrite He in E. cbn [snd] in E.
  destruct (submitAll2_shape r q w') as (_ & S2 & _).
  unfold checkedUrls in *. rewrite !flat_map_app, E, S2. cbn [flat_map app].
  rewrite app_nil_r. split; [destruct file; reflexivity | reflexivity].
Qed.

(** X13. In part_001 the queue is drawn from the URLs of the run only:
    it holds no URL more often than the URL list does, so a URL that is in
    the cache but not in the list has neither its publish metadata fetched
    nor indexing requested. *)
Theorem queue_within_urls (sched : Scheduler) (o : option (list Url))
        (r : option bool) (file : CacheFile) (w w1 : World)
        (urls : list Url) (ev : list Event) (loaded : StatusPerUrl)
        (Henum : enumeratePages o w = (inr urls, w1, ev))
        (Hload : loadCache file = Some loaded) :
  (exists others, Permutation (queue (index sched o r file w) ++ others) urls) /\
  incl (queriedUrls (trace (index sched o r file w))) urls /\
  incl (requestedUrls (trace (index sched o r file w))) urls.
Proof.
  rewrite (index2_finished sched o r file w w1 urls ev loaded Henum Hload).
  cbv zeta. cbn [trace queue].
  set (s0 := {| world := w1; statusPerUrl := loaded;
                pagesPerStatus := pagesPerIndexingStatus_init;
                events := _ |}).
  set (s1 := batch sched worker urls 50 onBatchComplete s0).
  assert (Hsub : exists others,
             Permutation (indexablePages (pagesPerStatus s1) ++ others) urls).
  { destruct (batch_collect
                (fun s => flat_map snd (pagesPerStatus s))
                (fun u => [u]) (fun u => [u]) worker onBatchComplete
                worker2_collects) with (sched := sched) (items := urls)
                (size := 50%nat) (s := s0) as (fs & rs & Hp & Hc).
    - intros url i b n s k Hk s'. apply worker2_suspended in Hk. subst k.
      rewrite recheck2_eq. cbv zeta. cbn [pagesPerStatus].
      apply perStatus_push_entries.
    - reflexivity.
    - lia.
    - fold s1 in Hc. cbn in Hc. rewrite !flat_map_singleton in Hc.
      destruct (indexablePages_within (pagesPerStatus s1)) as (others & Ho).
      exists others. now rewrite Ho, Hc. }
  assert (Hincl : incl (indexablePages (pagesPerStatus s1)) urls).
  { destruct Hsub as (others & Ho). intros u Hu.
    eapply Permutation_in; [exact Ho|]. apply in_or_app. now left. }
  split; [exact Hsub|].
  destruct (submitAll2_shape r (indexablePages (pagesPerStatus s1)) (world s1))
    as (S1 & _ & S3).
  assert (Hbefore : queriedUrls (events s1) = [] /\ requestedUrls (events s1) = []).
  { apply (batch_inv
             (fun s' => queriedUrls (events s') = [] /\
                        requestedUrls (events s') = [])
             worker urls onBatchComplete).
    - intros url i b n s _ Hs. split; [now rewrite worker2_events|].
      intros k Hk s' [H1 H2]. apply worker2_suspended in Hk. subst k.
      rewrite recheck2_eq. cbv zeta. cbn [events].
      unfold queriedUrls, requestedUrls in *.
      now rewrite !flat_map_app, H1, H2.
    - intros b n s [H1 H2]. cbn [onBatchComplete events].
      unfold queriedUrls, requestedUrls in *.
      now rewrite !flat_map_app, H1, H2.
    - cbn [s0 events]. destruct (enumeratePages_checked o w) as (_ & E2 & E3).
      rewrite Henum in E2, E3. cbn [snd] in E2, E3.
      unfold queriedUrls, requestedUrls in *.
      rewrite !flat_map_app, E2, E3. destruct file; now split. }
  destruct Hbefore as [B1 B2].
  unfold queriedUrls, requestedUrls in *.
  rewrite !flat_map_app, B1, B2, S1. cbn [flat_map app].
  split; [assumption|]. intros u Hu. apply Hincl, S3, Hu.
Qed.

(** X14. In part_001 an entry whose status is not in the list of
    indexable statuses is never checked again, however old it is: the run
    fetches no status for its URL and writes the entry back as it was. *)
Theorem settled_entry_never_rechecked
        (sched : Scheduler) (o : option (list Url))
        (r : option bool) (file : CacheFile) (w w1 : World)
        (urls : list Url) (ev : list Event) (loaded : StatusPerUrl)
        (u : Url) (res : Result)
        (Henum : enumeratePages o w = (inr urls, w1, ev))
        (Hload : loadCache file = Some loaded)
        (Hcached : statusPerUrl_get loaded u = Some res)
        (Hsettled : includes Part001.indexableStatuses (status res) = false) :
  ~ In u (checkedUrls (trace (index sched o r file w))) /\
  statusPerUrl_get (savedStatuses (index sched o r file w)) u = Some res /\
  ~ In u (queue (index sched o r file w)).
Proof.
  rewrite (index2_finished sched o r file w w1 urls ev loaded Henum Hload).
  cbv zeta. cbn [trace savedStatuses queue].
  set (s0 := {| world := w1; statusPerUrl := loaded;
                pagesPerStatus := pagesPerIndexingStatus_init;
                events := _ |}).
  set (s1 := batch sched worker urls 50 onBatchComplete s0).
  destruct (finished2_trace o file w w1 urls ev r
              (indexablePages (pagesPerStatus s1)) (world s1) (events s1)
              (statusPerUrl s1) Henum) as [E0 E1].
  rewrite E1.
  assert (H : statusPerUrl_get (statusPerUrl s1) u = Some res /\
              ~ In u (checkedUrls (events s1)) /\
              ~ In u (indexablePages (pagesPerStatus s1))).
  { apply (batch_inv
             (fun s' => statusPerUrl_get (statusPerUrl s') u = Some res /\
                        ~ In u (checkedUrls (events s')) /\
                        ~ In u (indexablePages (pagesPerStatus s')))
             worker urls onBatchComplete).
    - intros url i b n s _ (Hs1 & Hs2 & Hs3). split.
      + rewrite worker2_statuses, worker2_events.
        split; [assumption|]. split; [assumption|].
        worker2_cases s url; try assumption.
        intros Hin.
        eapply Permutation_in in Hin; [|apply indexablePages_push].
        apply in_app_or in Hin. destruct Hin as [Hin|Hin]; [now apply Hs3|].
        destruct (includes Part001.indexableStatuses (status result)) eqn:Ei;
          [|contradiction].
        destruct Hin as [<-|[]]. rewrite Hs1 in Hget.
        injection Hget as <-. congruence.
      + intros k Hk s' (H1 & H2 & H3).
        assert (Hne : url <> u).
        { intros ->. revert Hk. unfold worker. rewrite Hs1.
          destruct (dateNow (world s)) as [now w2].
          unfold Part001.shouldRecheck. rewrite Hsettled. discriminate. }
        apply worker2_suspended in Hk. subst k.
        rewrite recheck2_eq. cbv zeta. cbn [statusPerUrl events pagesPerStatus].
        rewrite statusPerUrl_get_set_other by assumption.
        split; [assumption|]. split.
        * rewrite checked2_snoc. intros Hin. apply in_app_or in Hin.
          destruct Hin as [Hin|[Hin|[]]]; [now apply H2 | now apply Hne].
        * intros Hin.
          eapply Permutation_in in Hin; [|apply indexablePages_push].
          apply in_app_or in Hin. destruct Hin as [Hin|Hin]; [now apply H3|].
          match type of Hin with
          | context [if ?c then _ else _] => destruct c
          end; [|contradiction].
          destruct Hin as [Hin|[]]. now apply Hne.
    - intros b n s (H1 & H2 & H3). cbn [onBatchComplete statusPerUrl events
                                          pagesPerStatus].
      rewrite checked2_complete. now repeat split.
    - cbn [s0 statusPerUrl events pagesPerStatus]. rewrite E0.
      split; [assumption|]. split; [intros []|].
      cbn. intros []. }
  destruct H as (H1 & H2 & H3). now repeat split.
Qed.

(** X15. In part_001 a URL of the run that has no entry in the loaded
    cache and whose status checks answer one of the six statuses of the
    list, RateLimited among them, is queued and has its publish metadata
    fetched. *)
Theorem indexable_url_is_queued
        (sched : Scheduler) (o : option (list Url))
        (r : option bool) (file : CacheFile) (w w1 : World)
        (urls : list Url) (ev : list Event) (loaded : StatusPerUrl) (u : Url)
        (Henum : enumeratePages o w = (inr urls, w1, ev))
        (Hload : loadCache file = Some loaded)
        (Hlisted : In u urls)
        (Hnew : statusPerUrl_get loaded u = None)
        (Hindexable :
           forall w', includes Part001.indexableStatuses
                               (fst (getPageIndexingStatus w' u)) = true) :
  In u (queue (index sched o r file w)) /\
  In u (queriedUrls (trace (index sched o r file w))).
Proof.
  rewrite (index2_finished sched o r file w w1 urls ev loaded Henum Hload).
  cbv zeta. cbn [trace queue].
  set (s0 := {| world := w1; statusPerUrl := loaded;
                pagesPerStatus := pagesPerIndexingStatus_init;
                events := _ |}).
  set (s1 := batch sched worker urls 50 onBatchComplete s0).
  assert (Hq : (fun v s' => v = u -> In u (indexablePages (pagesPerStatus s')))
                 u s1).
  { apply (batch_progress
             (fun s' => forall res, statusPerUrl_get (statusPerUrl s') u = Some res ->
                        includes Part001.indexableStatuses (status res) = true)
             (fun v s' => v = u -> In u (indexablePages (pagesPerStatus s')))
             worker urls onBatchComplete).
    - intros url i b n s _ Hs. split; [now rewrite worker2_statuses|].
      intros k Hk s' H' res. apply worker2_suspended in Hk. subst k.
      rewrite recheck2_eq. cbv zeta. cbn [statusPerUrl].
      destruct (String.eqb url u) eqn:E.
      + apply String.eqb_eq in E. subst url.
        rewrite statusPerUrl_get_set_same. intros [= <-]. cbn [status].
        apply Hindexable.
      + apply String.eqb_neq in E.
        rewrite statusPerUrl_get_set_other by assumption. apply H'.
    - intros b n s Hs. exact Hs.
    - intros v url i b n s _ H Hv. specialize (H Hv).
      worker2_cases s url; try assumption.
      now apply indexablePages_push_In.
    - intros v url i b n s k _ _ Hk s' _ H Hv. specialize (H Hv).
      apply worker2_suspended in Hk. subst k.
      rewrite recheck2_eq. cbv zeta. cbn [pagesPerStatus].
      now apply indexablePages_push_In.
    - intros v b n s _ H Hv. exact (H Hv).
    - intros url i b n s _ Hs.
      destruct (snd (worker url i b n s)) as [k|] eqn:Hk.
      + intros s' _ ->. apply worker2_suspended in Hk. subst k.
        rewrite recheck2_eq. cbv zeta. cbn [pagesPerStatus].
        apply indexablePages_push_In; [exact u | apply Hindexable].
      + intros ->. revert Hk. worker2_cases s u; try discriminate.
        intros _. apply indexablePages_push_In; [exact u|].
        now apply Hs.
    - lia.
    - cbn [s0 statusPerUrl]. intros res Hres. rewrite Hnew in Hres.
      discriminate.
    - exact Hlisted. }
  specialize (Hq eq_refl). split; [assumption|].
  destruct (submitAll2_shape r (indexablePages (pagesPerStatus s1)) (world s1))
    as (S1 & _ & _).
  unfold queriedUrls in *. rewrite !flat_map_app.
  apply in_or_app. right. apply in_or_app. right. now rewrite S1.
Qed.
End Runs.
End Part001Facts.

(** ** The entry of [index]: options, credentials, cache file *)

Module EntryFacts.
Import Entry.

Lemma split_comma_not_nil (s : string) : split_comma s <> [].
Proof.
  induction s as [|c rest IH]; cbn [split_comma]; [discriminate|].
  destruct (Ascii.eqb c ","%char); [discriminate|].
  destruct (split_comma rest); discriminate.
Qed.

Lemma orElse_resolved (x a e : option string) :
  let resolved := if negb (truthyString x) then orElse a e else x in
  (if negb (truthyString resolved) then orElse a e else resolved) = resolved.
Proof.
  cbv zeta. destruct (truthyString x) eqn:Hx; cbn [negb].
  - now rewrite Hx.
  - destruct (truthyString (orElse a e)); reflexivity.
Qed.

(** X17. [index] writes the resolved options back into the object it was
    given: resolving them again from the same command line and environment
    changes nothing, and once resolved the quota switch and a URL list are
    kept whatever the command line and the environment become. *)
Theorem resolveOptions_settles (options : IndexOptions)
        (args env args' env' : string -> option string) :
  let resolved := resolveOptions options args env in
  resolveOptions resolved args env = resolved /\
  quota (resolveOptions resolved args' env') = quota resolved /\
  quota resolved <> None /\
  (urls resolved = None \/
   urls (resolveOptions resolved args' env') = urls resolved).
Proof.
  cbv zeta. split; [|split; [|split]].
  - destruct options as [ce pk pa us qu]. unfold resolveOptions.
    cbn [client_email private_key path urls quota].
    pose proof (orElse_resolved ce (args "client-email"%string)
                                (env "GIS_CLIENT_EMAIL"%string)) as H1.
    pose proof (orElse_resolved pk (args "private-key"%string)
                                (env "GIS_PRIVATE_KEY"%string)) as H2.
    pose proof (orElse_resolved pa (args "path"%string)
                                (env "GIS_PATH"%string)) as H3.
    cbv zeta in H1, H2, H3. rewrite H1, H2, H3.
    destruct us, qu, (truthyString (args "urls"%string)),
      (args "urls"%string); reflexivity.
  - unfold resolveOptions. cbn [quota]. destruct (quota options); reflexivity.
  - unfold resolveOptions. cbn [quota]. destruct (quota options); discriminate.
  - unfold resolveOptions. cbn [urls].
    destruct (urls options); [now right|].
    destruct (truthyString (args "urls"%string)); [|now left].
    destruct (args "urls"%string); [now right | now left].
Qed.

Section Runs.
Context {World : Type} {A : Access World}.

(** The stages after the site check say nothing of sitemaps, unless the
    enumeration does. *)
Lemma index_sitemap_query {C : Collaborators World} (sched : Scheduler)
      (o : option (list Url)) (r : option bool) (file : CacheFile) (w : World) :
  In CallGetSitemapUrls (trace (index sched o r file w)) ->
  In CallGetSitemapUrls (snd (enumerateUrls o w)).
Proof.
  destruct (enumerateUrls o w) as [[[code|urls] w1] ev] eqn:He; cbn [snd].
  - now rewrite (index_exited sched o r file w w1 code ev He).
  - destruct (loadCache file) as [loaded|] eqn:Hl.
    + rewrite (index_finished sched o r file w w1 urls ev loaded He Hl).
      cbv zeta. cbn [trace].
      match goal with
      | |- context [batch sched worker urls 50 onBatchComplete ?s] =>
          destruct (batch_events sched urls 50 s) as (evs & Hev & Hb)
      end.
      rewrite Hev. cbn [events]. intros Hin.
      repeat (apply in_app_or in Hin; destruct Hin as [Hin|Hin]);
        try assumption.
      * destruct file; cbn in Hin; intuition discriminate.
      * rewrite Forall_forall in Hb. apply Hb in Hin. discriminate Hin.
      * cbn in Hin. intuition discriminate.
      * pose proof (submitAll_submissions r
                      (selectQueue (pages (batch sched worker urls 50
                         onBatchComplete
                         {| world := w1; pages := loaded;
                            pagesPerIndexingStatus := pagesPerIndexingStatus_init;
                            events := ev ++ match file with
                                            | Absent => []
                                            | _ => [ReadCacheFile]
                                            end |})))
                      (world (batch sched worker urls 50 onBatchComplete
                         {| world := w1; pages := loaded;
                            pagesPerIndexingStatus := pagesPerIndexingStatus_init;
                            events := ev ++ match file with
                                            | Absent => []
                                            | _ => [ReadCacheFile]
                                            end |}))) as Hs.
        rewrite Forall_forall in Hs. apply Hs in Hin. discriminate Hin.
    + rewrite (index_threw sched o r file w w1 urls ev He Hl).
      intros Hin. apply in_app_or in Hin. destruct Hin as [Hin|Hin];
        [assumption | cbn in Hin; intuition discriminate].
Qed.

(** X18. URLs given with the command-line flag, when the options hold
    none, always replace sitemap discovery: the run never queries the
    sitemaps, even if [checkCustomUrls] keeps none of the URLs. *)
Theorem command_line_urls_skip_sitemaps
        (sched : Scheduler) (input : option string) (options : IndexOptions)
        (args env : string -> option string) (fs : FileSystem) (w : World)
        (given : string)
        (Hnone : urls options = None)
        (Hflag : args "urls"%string = Some given)
        (Hgiven : given <> ""%string) :
  urls (resolveOptions options args env) = Some (split_comma given) /\
  ~ In (Stage CallGetSitemapUrls)
       (entry_trace (indexFrom sched input options args env fs w)).
Proof.
  assert (Hurls : urls (resolveOptions options args env)
                  = Some (split_comma given)).
  { unfold resolveOptions. cbn [urls]. rewrite Hnone, Hflag.
    cbn [truthyString]. apply String.eqb_neq in Hgiven. now rewrite Hgiven. }
  split; [assumption|].
  unfold indexFrom. destruct input as [site|]; [|intros []].
  destruct (String.eqb site ""); [intros []|].
  destruct (getAccessToken w _ _ _) as [[token|] w1];
    [|cbn; intuition discriminate].
  destruct (String.eqb token ""); [cbn; intuition discriminate|].
  destruct (checkSiteUrl w1 token _) as [[code|checked] w2];
    [cbn; intuition discriminate|].
  cbn [entry_trace]. rewrite Hurls. intros Hin.
  repeat (apply in_app_or in Hin; destruct Hin as [Hin|Hin]);
    try (cbn in Hin; intuition discriminate).
  apply in_map_iff in Hin. destruct Hin as (e & He & Hin).
  injection He as ->.
  apply index_sitemap_query in Hin. revert Hin.
  unfold enumerateUrls.
  pose proof (split_comma_not_nil given) as Hn.
  destruct (split_comma given) as [|piece pieces]; [contradiction|].
  cbn [List.length Nat.eqb snd]. intros [].
Qed.

(** X19. Without an input, or without an access token, the run exits with
    code 1 before the site is checked: nothing but the token request has
    happened, no sitemap is queried and no file is touched. *)
Theorem fatal_before_site_check
        (sched : Scheduler) (input : option string) (options : IndexOptions)
        (args env : string -> option string) (fs : FileSystem) (w : World)
        (Hfatal :
           truthyString input = false \/
           truthyString
             (fst (getAccessToken
                     w (client_email (resolveOptions options args env))
                     (private_key (resolveOptions options args env))
                     (path (resolveOptions options args env)))) = false) :
  let run := indexFrom sched input options args env fs w in
  entry_outcome run = Exited 1 /\
  entry_files run = fs /\
  (entry_trace run = [] \/
   exists a b c, entry_trace run = [CallGetAccessToken a b c]) /\
  (truthyString input = false -> entry_trace run = [] /\ entry_world run = w).
Proof.
  cbv zeta. unfold indexFrom.
  destruct input as [site|]; [|now repeat split; auto].
  cbn [truthyString] in *.
  destruct (String.eqb site "") eqn:Es; [now repeat split; auto|].
  destruct Hfatal as [Hfatal|Hfatal]; [discriminate|].
  destruct (getAccessToken w _ _ _) as [[token|] w1]; cbn [fst] in Hfatal.
  - cbn [truthyString] in Hfatal. apply negb_false_iff in Hfatal.
    rewrite Hfatal. cbn [entry_outcome entry_files entry_trace].
    repeat split; [right; eauto | discriminate | discriminate].
  - cbn [entry_outcome entry_files entry_trace].
    repeat split; [right; eauto | discriminate | discriminate].
Qed.

(** X20. A run changes at most one file, the cache file named after the
    input site as [convertToSiteUrl] gives it, and only if it finishes;
    the file then holds a stored mapping.  Every other file, and every
    file of a run that exits or throws, holds what it held before. *)
Theorem only_own_cache_file_changes
        (sched : Scheduler) (input : option string) (options : IndexOptions)
        (args env : string -> option string) (fs : FileSystem) (w : World)
        (p : string) :
  let run := indexFrom sched input options args env fs w in
  entry_files run p = fs p \/
  (exists site, input = Some site /\
                p = cachePathOf (convertToSiteUrl site)) /\
  entry_outcome run = Finished /\
  exists saved, entry_files run p = Stored saved.
Proof.
  cbv zeta. unfold indexFrom.
  destruct input as [site|]; [|now left].
  destruct (String.eqb site ""); [now left|].
  destruct (getAccessToken w _ _ _) as [[token|] w1]; [|now left].
  destruct (String.eqb token ""); [now left|].
  destruct (checkSiteUrl w1 token _) as [[code|checked] w2]; [now left|].
  cbn [entry_files entry_outcome]. unfold writeFile.
  destruct (String.eqb p (cachePathOf (convertToSiteUrl site))) eqn:Ep;
    [|now left].
  apply String.eqb_eq in Ep. subst p.
  set (C := services token checked).
  set (o := urls (resolveOptions options args env)).
  set (r := quota_rpmRetry (resolveOptions options args env)).
  set (file := fs (cachePathOf (convertToSiteUrl site))).
  destruct (@enumerateUrls World C o w2) as [[[code|us] w3] ev] eqn:He.
  - left. now rewrite (@index_exited World C sched o r file w2 w3 code ev He).
  - destruct (loadCache file) as [loaded|] eqn:Hl.
    + right.
      rewrite (@index_finished World C sched o r file w2 w3 us ev loaded He Hl).
      cbv zeta. cbn [outcome cacheFile].
      split; [now exists site|]. split; [reflexivity|]. eauto.
    + left. now rewrite (@index_threw World C sched o r file w2 w3 us ev He Hl).
Qed.
End Runs.
End EntryFacts.

(** ** The further properties on scripted runs *)

Lemma staleness_monotone_witness :
  scenario_now <= scenario_now + 1 /\
  (shouldRecheck scenario_now
                 {| status := Failed; indexingStatus := RateLimited;
                    lastCheckedAt := Ms scenario_now |} = true ->
   shouldRecheck (scenario_now + 1)
                 {| status := Failed; indexingStatus := RateLimited;
                    lastCheckedAt := Ms scenario_now |} = true) /\
  shouldRecheck scenario_now
                {| status := Completed; indexingStatus := SubmittedAndIndexed;
                   lastCheckedAt := Ms (scenario_now - CACHE_TIMEOUT - 1) |}
  = true /\
  shouldRecheck (scenario_now + 1)
                {| status := Completed; indexingStatus := SubmittedAndIndexed;
                   lastCheckedAt := Ms (scenario_now - CACHE_TIMEOUT - 1) |}
  = true /\
  Part001.shouldRecheck (scenario_now + 1) Forbidden
                        (Ms (scenario_now - CACHE_TIMEOUT - 1)) = true.
Proof.
  assert (H : scenario_now <= scenario_now + 1) by lia.
  split; [exact H|]. split; [|split; [reflexivity|split]].
  - exact (proj1 (staleness_monotone
                    scenario_now (scenario_now + 1)
                    {| status := Failed; indexingStatus := RateLimited;
                       lastCheckedAt := Ms scenario_now |} H)).
  - exact (proj1 (staleness_monotone
                    scenario_now (scenario_now + 1)
                    {| status := Completed;
                       indexingStatus := SubmittedAndIndexed;
                       lastCheckedAt := Ms (scenario_now - CACHE_TIMEOUT - 1) |}
                    H) eq_refl).
  - exact (proj2 (staleness_monotone
                    scenario_now (scenario_now + 1)
                    {| status := Pending; indexingStatus := Forbidden;
                       lastCheckedAt := Ms (scenario_now - CACHE_TIMEOUT - 1) |}
                    H) eq_refl).
Defined.

Lemma every_url_cached_witness :
  In page_a (pages_keys (savedPages carried_over_run)) /\
  In page_old (pages_keys (savedPages carried_over_run)).
Proof.
  split.
  - apply (@every_url_cached
             _ scenario fifo None None (Stored old_cache) [] []
             [page_a; page_b; page_c] [CallGetSitemapUrls] old_cache
             eq_refl eq_refl page_a).
    right. now left.
  - apply (@every_url_cached
             _ scenario fifo None None (Stored old_cache) [] []
             [page_a; page_b; page_c] [CallGetSitemapUrls] old_cache
             eq_refl eq_refl page_old).
    left. now left.
Defined.

Lemma status_checks_within_urls_witness :
  checkedUrls (trace second_run) = [page_c] /\
  exists spared,
    Permutation (checkedUrls (trace second_run) ++ spared)
                [page_a; page_b; page_c].
Proof.
  split; [reflexivity|].
  exact (@status_checks_within_urls
           _ scenario lifo None (Some true)
           (cacheFile first_run) (finalWorld first_run) (finalWorld first_run)
           [page_a; page_b; page_c] [CallGetSitemapUrls]
           (savedPages first_run) eq_refl eq_refl).
Defined.

Lemma checks_have_reason_witness :
  In page_a (checkedUrls (trace carried_over_run)) /\
  (pages_get old_cache page_a = None \/
   exists p w', pages_get old_cache page_a = Some p /\
                shouldRecheck (fst (@dateNow _ scenario w')) p = true).
Proof.
  assert (H : In page_a (checkedUrls (trace carried_over_run)))
    by (now left).
  split; [exact H|].
  exact (@checks_have_reason
           _ scenario fifo None None (Stored old_cache) [] []
           [page_a; page_b; page_c] [CallGetSitemapUrls] old_cache page_a
           eq_refl eq_refl H).
Defined.

Lemma missing_or_stale_is_checked_witness :
  pages_get old_cache page_c = None /\
  In page_c (checkedUrls (trace carried_over_run)).
Proof.
  split; [reflexivity|].
  refine (proj1 (@missing_or_stale_is_checked
                   _ scenario fifo None None (Stored old_cache) [] []
                   [page_a; page_b; page_c] [CallGetSitemapUrls] old_cache
                   page_c eq_refl eq_refl _ _)).
  - right. right. now left.
  - intros p Hp. discriminate Hp.
Defined.

Lemma incremental_run_witness :
  checkedUrls (trace settled_run) = [] /\
  savedPages settled_run = settled_cache /\
  cacheFile settled_run = Stored settled_cache.
Proof.
  refine (@incremental_run
            _ scenario lifo None None (Stored settled_cache) [] []
            [page_a; page_b; page_c] [CallGetSitemapUrls] settled_cache
            eq_refl eq_refl _).
  intros u [<-|[<-|[<-|[]]]]; eexists; (split; [reflexivity|]);
    intros w'; reflexivity.
Defined.

Lemma one_submission_per_url_witness :
  NoDup (pages_keys old_cache) /\
  NoDup (requestedUrls (trace carried_over_run)).
Proof.
  assert (H : NoDup (pages_keys old_cache))
    by (repeat constructor; intros []).
  split; [exact H|].
  exact (proj2 (proj2 (proj2
           (@one_submission_per_url
              _ scenario fifo None None (Stored old_cache) [] []
              [page_a; page_b; page_c] [CallGetSitemapUrls] old_cache
              eq_refl eq_refl H)))).
Defined.

Lemma requests_only_pending_witness :
  In page_a (requestedUrls (trace first_run)) /\
  In page_a (queue first_run) /\
  exists p, pages_get (savedPages first_run) page_a = Some p /\
            status p = Pending.
Proof.
  assert (H : In page_a (requestedUrls (trace first_run))) by (now left).
  split; [exact H|].
  exact (@requests_only_pending
           _ scenario fifo None (Some true) Absent [] page_a H).
Defined.

Lemma queue_within_urls_witness :
  incl (Part001Run.requestedUrls (Part001Run.trace variant_run))
       [page_a; page_b; page_c].
Proof.
  exact (proj2 (proj2
           (@Part001Facts.queue_within_urls
              _ scenario fifo None None (Part001Run.Stored variant_cache)
              [] [] [page_a; page_b; page_c] [Part001Run.CallGetSitemapPages]
              variant_cache eq_refl eq_refl))).
Defined.

Lemma settled_entry_never_rechecked_witness :
  (~ In page_old (Part001Run.checkedUrls (Part001Run.trace variant_run)) /\
   Part001Run.statusPerUrl_get (Part001Run.savedStatuses variant_run) page_old
   = Some {| Part001Run.status := SubmittedAndIndexed;
             Part001Run.lastCheckedAt := Ms 0 |} /\
   ~ In page_old (Part001Run.queue variant_run)) /\
  (In page_b [page_a; page_b; page_c] /\
   ~ In page_b (Part001Run.checkedUrls (Part001Run.trace variant_listed_run)) /\
   Part001Run.statusPerUrl_get (Part001Run.savedStatuses variant_listed_run)
                               page_b
   = Some {| Part001Run.status := SubmittedAndIndexed;
             Part001Run.lastCheckedAt := Ms 0 |} /\
   ~ In page_b (Part001Run.queue variant_listed_run)).
Proof.
  split.
  - exact (@Part001Facts.settled_entry_never_rechecked
             _ scenario fifo None None (Part001Run.Stored variant_cache)
             [] [] [page_a; page_b; page_c] [Part001Run.CallGetSitemapPages]
             variant_cache page_old
             {| Part001Run.status := SubmittedAndIndexed;
                Part001Run.lastCheckedAt := Ms 0 |}
             eq_refl eq_refl eq_refl eq_refl).
  - split; [right; now left|].
    exact (@Part001Facts.settled_entry_never_rechecked
             _ scenario fifo None None
             (Part001Run.Stored variant_listed_cache)
             [] [] [page_a; page_b; page_c] [Part001Run.CallGetSitemapPages]
             variant_listed_cache page_b
             {| Part001Run.status := SubmittedAndIndexed;
                Part001Run.lastCheckedAt := Ms 0 |}
             eq_refl eq_refl eq_refl eq_refl).
Defined.

Lemma indexable_url_is_queued_witness :
  scenario_status page_c = RateLimited /\
  In page_c (Part001Run.queue variant_run) /\
  In page_c (Part001Run.queriedUrls (Part001Run.trace variant_run)).
Proof.
  split; [reflexivity|].
  refine (@Part001Facts.indexable_url_is_queued
            _ scenario fifo None None (Part001Run.Stored variant_cache)
            [] [] [page_a; page_b; page_c] [Part001Run.CallGetSitemapPages]
            variant_cache page_c eq_refl eq_refl _ eq_refl _).
  - right. right. now left.
  - intros w'. reflexivity.
Defined.

Lemma command_line_urls_skip_sitemaps_witness :
  Entry.urls (Entry.resolveOptions no_options urls_on_command_line nothing_set)
  = Some [page_a; page_b] /\
  ~ In (Entry.Stage CallGetSitemapUrls) (Entry.entry_trace command_line_run).
Proof.
  refine (@EntryFacts.command_line_urls_skip_sitemaps
            _ scripted_access fifo (Some "example.com"%string) no_options
            urls_on_command_line nothing_set no_files []
            "https://example.com/a,https://example.com/b"%string
            eq_refl eq_refl _).
  discriminate.
Defined.

Lemma fatal_before_site_check_witness :
  Entry.entry_outcome no_credentials_run = Exited 1 /\
  Entry.entry_files no_credentials_run = no_files /\
  (Entry.entry_trace no_credentials_run = [] \/
   exists a b c,
     Entry.entry_trace no_credentials_run = [Entry.CallGetAccessToken a b c]).
Proof.
  pose proof (@EntryFacts.fatal_before_site_check
                _ scripted_access fifo (Some "example.com"%string)
                no_options nothing_set nothing_set no_files []
                (or_intror eq_refl)) as H.
  cbv zeta in H. destruct H as (H1 & H2 & H3 & _).
  repeat split; assumption.
Defined.
